(** * Diff Digest: release-note streaming, note state and cache

    A shallow embedding of the note generation workflow of
    [src/app/page.tsx] (the client: SSE reconstruction, per-diff note
    entries, batch generation, the localStorage cache) and of the
    [generate-notes] route handler (the server side request check).

    Conventions of the embedding.
    - A JavaScript string is a [string]; text outside ASCII is carried as
      its UTF-8 bytes.
    - A value produced by [JSON.parse] is a [json]; a property that is
      absent ([undefined]) is [None] of [option json]. A number is the
      double its literal denotes, printed as [Number.prototype.toString]
      prints it.
    - The wording of the errors the engine throws is a parameter, the
      [Engine].
    - React state is split in two: the {e store}, changed only by the
      functional updaters [setNotes(prev => ...)] and
      [setJsonAccumulator(prev => ...)], and the {e snapshot} a closure
      captured at the render it was created in, which is what a plain read
      such as [notes[diffId]] or [jsonAccumulator[diffId]] sees. *)

From Stdlib Require Import ZArith Ascii String List Bool Lia DecimalString.
From stdpp Require Import gmap strings list fin_maps option.

Set Warnings "-register-all".
Local Open Scope string_scope.
Local Open Scope list_scope.

(** ** Strings as the page uses them *)

Module Str.

Definition startsWith (s p : string) : bool := String.prefix p s.

Fixpoint includes (s p : string) : bool :=
  String.prefix p s ||
  match s with
  | EmptyString => false
  | String _ rest => includes rest p
  end.

Definition endsWith (s p : string) : bool :=
  String.prefix (String.rev p) (String.rev s).

(** [s.substring(0, n)] *)
Fixpoint substring_to (n : nat) (s : string) : string :=
  match n, s with
  | S n', String c rest => String c (substring_to n' rest)
  | _, _ => EmptyString
  end.

(** [s.substring(n)] *)
Fixpoint substring_from (n : nat) (s : string) : string :=
  match n, s with
  | O, _ => s
  | S n', String _ rest => substring_from n' rest
  | S _, EmptyString => EmptyString
  end.

Definition LF : ascii := "010"%char.
Definition DQ : ascii := ascii_of_N 34.

(** [s] between double quotes. *)
Definition quoted (s : string) : string :=
  String DQ s +:+ String DQ EmptyString.

(** A text written with an apostrophe wherever it has a double quote. *)
Fixpoint dq (s : string) : string :=
  match s with
  | EmptyString => EmptyString
  | String c rest => String (if Ascii.eqb c "'" then DQ else c) (dq rest)
  end.

(** [s.split('\n\n')], with [cur] the segment being read. *)
Fixpoint split_frames_from (cur s : string) : list string :=
  match s with
  | EmptyString => [cur]
  | String a EmptyString => [cur +:+ String a EmptyString]
  | String a (String b rest as tl) =>
      if Ascii.eqb a LF && Ascii.eqb b LF
      then cur :: split_frames_from EmptyString rest
      else split_frames_from (cur +:+ String a EmptyString) tl
  end.

Definition split_frames (s : string) : list string :=
  split_frames_from EmptyString s.

(** Decimal rendering of a non-negative integer, as a template literal
    renders an HTTP status. *)
Definition of_N (n : N) : string := NilZero.string_of_uint (N.to_uint n).

End Str.

(** ** JSON values and [JSON.parse] *)

Module JSON.

Definition code (c : ascii) : N := N_of_ascii c.

Definition is_digit (c : ascii) : bool := (48 <=? code c)%N && (code c <=? 57)%N.

Definition is_e (c : ascii) : bool := (code c =? 101)%N || (code c =? 69)%N.
Definition is_dot (c : ascii) : bool := (code c =? 46)%N.
Definition is_sign (c : ascii) : bool := (code c =? 43)%N || (code c =? 45)%N.

(** *** Number literals *)

Fixpoint digits_value (acc : Z) (cs : list ascii) : Z :=
  match cs with
  | [] => acc
  | c :: rest => digits_value (acc * 10 + Z.of_N (code c - 48)) rest
  end.

Fixpoint take_digits (cs : list ascii) : list ascii * list ascii :=
  match cs with
  | [] => ([], [])
  | c :: rest =>
      if is_digit c
      then let '(ds, tl) := take_digits rest in (c :: ds, tl)
      else ([], cs)
  end.

(** The mantissa and the exponent of a number literal, whose value is
    [mantissa * 10 ^ exponent]: the digits of its integer part and of its
    fraction, and its exponent less the length of the fraction. *)
Definition literal_parts (literal : string) : Z * Z :=
  let cs := list_ascii_of_string literal in
  let cs := match cs with c :: r => if (code c =? 45)%N then r else cs | [] => cs end in
  let '(int, cs) := take_digits cs in
  let '(frac, cs) :=
    match cs with
    | c :: r => if is_dot c then take_digits r else ([], cs)
    | [] => ([], cs)
    end in
  let exponent :=
    match cs with
    | c :: r =>
        if is_e c then
          match r with
          | s :: r' =>
              if (code s =? 45)%N then (- digits_value 0 r')%Z
              else if (code s =? 43)%N then digits_value 0 r'
              else digits_value 0 r
          | [] => 0%Z
          end
        else 0%Z
    | [] => 0%Z
    end in
  (digits_value 0 (int ++ frac), (exponent - Z.of_nat (length frac))%Z).

(** *** Numbers *)

(** A number is an IEEE 754 double: a zero, [mantissa * 2 ^ exponent] with
    the mantissa below [2 ^ 53] and the exponent from -1074 to 971, or an
    infinity; [JSON.parse] makes no NaN. *)
Inductive number :=
| Zero (negative : bool)
| Finite (negative : bool) (mantissa exponent : Z)
| Infinite (negative : bool).

(** [n / d >= 2 ^ k], for positive [n] and [d]. *)
Definition at_least_pow2 (n d k : Z) : bool :=
  if (0 <=? k)%Z then (d * 2 ^ k <=? n)%Z else (d <=? n * 2 ^ (- k))%Z.

(** The [b] with [2 ^ b <= n / d < 2 ^ (b + 1)]. *)
Definition binade (n d : Z) : Z :=
  let c := (Z.log2 n - Z.log2 d)%Z in
  if at_least_pow2 n d c then c else (c - 1)%Z.

(** [n / d] rounded to the nearest integer, a tie to the even one. *)
Definition round_half_even (n d : Z) : Z :=
  let q := (n / d)%Z in
  match (2 * (n mod d) ?= d)%Z with
  | Lt => q
  | Gt => (q + 1)%Z
  | Eq => if Z.even q then q else (q + 1)%Z
  end.

(** The double nearest to [n / d], for positive [n] and [d]. *)
Definition round_ratio (negative : bool) (n d : Z) : number :=
  let e := Z.max (binade n d - 52) (-1074) in
  let m := if (0 <=? e)%Z then round_half_even n (d * 2 ^ e)
           else round_half_even (n * 2 ^ (- e)) d in
  let '(m, e) := if (m =? 2 ^ 53)%Z then (2 ^ 52, e + 1)%Z else (m, e) in
  if (m =? 0)%Z then Zero negative
  else if (971 <? e)%Z then Infinite negative
  else Finite negative m e.

(** [s * 10 ^ x] as a ratio. *)
Definition decimal_ratio (s x : Z) : Z * Z :=
  if (0 <=? x)%Z then (s * 10 ^ x, 1)%Z else (s, 10 ^ (- x))%Z.

(** The value of a number literal. A literal above [10 ^ 309] or below
    [10 ^ -325] is an infinity or a zero whatever its digits. *)
Definition of_literal (literal : string) : number :=
  let negative :=
    match literal with
    | String c _ => (code c =? 45)%N
    | EmptyString => false
    end in
  let '(m, x) := literal_parts literal in
  if (m =? 0)%Z then Zero negative
  else if (308 <? x)%Z then Infinite negative
  else if (x + Z.of_nat (String.length literal) <? -324)%Z then Zero negative
  else let '(n, d) := decimal_ratio m x in round_ratio negative n d.

(** *** [Number.prototype.toString] *)

(** [m * 2 ^ e] as a ratio. *)
Definition double_ratio (m e : Z) : Z * Z :=
  if (0 <=? e)%Z then (m * 2 ^ e, 1)%Z else (m, 2 ^ (- e))%Z.

(** [n / d >= 10 ^ k] *)
Definition at_least_pow10 (n d k : Z) : bool :=
  if (0 <=? k)%Z then (d * 10 ^ k <=? n)%Z else (d <=? n * 10 ^ (- k))%Z.

(** The [p] with [10 ^ (p - 1) <= n / d < 10 ^ p]. *)
Definition decimal_point (n d : Z) : Z :=
  let c := (binade n d * 30103 / 100000)%Z in
  if at_least_pow10 n d (c + 2) then (c + 3)%Z
  else if at_least_pow10 n d (c + 1) then (c + 2)%Z
  else if at_least_pow10 n d c then (c + 1)%Z
  else c.

(** Whether the decimal [s * 10 ^ x] reads back as the double
    [m * 2 ^ e]. *)
Definition reads_as (m e s x : Z) : bool :=
  let '(n, d) := decimal_ratio s x in
  match round_ratio false n d with
  | Finite _ m' e' => (m' =? m)%Z && (e' =? e)%Z
  | _ => false
  end.

(** The decimal of [k] digits that reads back as [m * 2 ^ e], the nearer
    one when there are two, if there is one. *)
Definition with_digits (m e p : Z) (k : Z) : option (Z * Z) :=
  let '(n, d) := double_ratio m e in
  let x := (p - k)%Z in
  let '(un, ud) := if (0 <=? x)%Z then (n, d * 10 ^ x)%Z else (n * 10 ^ (- x), d)%Z in
  let lo := (un / ud)%Z in
  let hi := (lo + 1)%Z in
  let nearer :=
    match (2 * (un mod ud) ?= ud)%Z with
    | Lt => lo
    | Gt => hi
    | Eq => if Z.even lo then lo else hi
    end in
  let pick (s : Z) := if (s =? 10 ^ k)%Z then (1, x + k)%Z else (s, x) in
  match reads_as m e lo x, reads_as m e hi x with
  | true, true => Some (pick nearer)
  | true, false => Some (pick lo)
  | false, true => Some (pick hi)
  | false, false => None
  end.

(** The shortest decimal that reads back as [m * 2 ^ e]; seventeen digits
    always do, and the exact expansion closes the definition. *)
Fixpoint shortest (m e p : Z) (k : Z) (tries : nat) : Z * Z :=
  match tries with
  | O => if (0 <=? e)%Z then (m * 2 ^ e, 0)%Z else (m * 5 ^ (- e), e)%Z
  | S tries' =>
      match with_digits m e p k with
      | Some sx => sx
      | None => shortest m e p (k + 1) tries'
      end
  end.

Fixpoint zeros (n : nat) : string :=
  match n with
  | O => EmptyString
  | S n' => String "0" (zeros n')
  end.

(** The digits [ds] with the decimal point after the first [p] of them,
    written as [Number.prototype.toString] writes it. *)
Definition layout (ds : string) (p : Z) : string :=
  let k := Z.of_nat (String.length ds) in
  if ((k <=? p) && (p <=? 21))%Z then ds +:+ zeros (Z.to_nat (p - k))
  else if ((0 <? p) && (p <=? 21))%Z then
    Str.substring_to (Z.to_nat p) ds +:+ "." +:+ Str.substring_from (Z.to_nat p) ds
  else if ((-6 <? p) && (p <=? 0))%Z then "0." +:+ zeros (Z.to_nat (- p)) +:+ ds
  else
    let x := (p - 1)%Z in
    let exponent := (if (x <? 0)%Z then "-" else "+") +:+ Str.of_N (Z.to_N (Z.abs x)) in
    if (k =? 1)%Z then ds +:+ "e" +:+ exponent
    else Str.substring_to 1 ds +:+ "." +:+ Str.substring_from 1 ds +:+ "e" +:+ exponent.

(** [String(x)] of a number. *)
Definition number_to_string (x : number) : string :=
  match x with
  | Zero _ => "0"
  | Infinite negative => if negative then "-Infinity" else "Infinity"
  | Finite negative m e =>
      let '(n, d) := double_ratio m e in
      let '(s, x) := shortest m e (decimal_point n d) 1 17 in
      let ds := Str.of_N (Z.to_N s) in
      (if negative then "-" else "") +:+ layout ds (x + Z.of_nat (String.length ds))
  end.

(** *** Values *)

(** A value [JSON.parse] makes. An object keeps its members in insertion
    order with one entry per key. *)
Inductive json :=
| JNull
| JBool (b : bool)
| JNum (x : number)
| JStr (s : string)
| JArr (elements : list json)
| JObj (members : list (string * json)).

Inductive token :=
| TLBrace | TRBrace | TLBracket | TRBracket | TColon | TComma
| TString (s : string)
| TNumber (literal : string)
| TTrue | TFalse | TNull.

(** *** Lexer: one pass over the characters *)

Definition is_ws (c : ascii) : bool :=
  (code c =? 32)%N || (code c =? 9)%N || (code c =? 10)%N || (code c =? 13)%N.

Definition hex_value (c : ascii) : option N :=
  let n := code c in
  if (48 <=? n)%N && (n <=? 57)%N then Some (n - 48)%N
  else if (65 <=? n)%N && (n <=? 70)%N then Some (n - 55)%N
  else if (97 <=? n)%N && (n <=? 102)%N then Some (n - 87)%N
  else None.

(** States of the number grammar: an optional minus sign, then 0 or a
    digit sequence without leading 0, an optional fraction, an optional
    exponent. *)
Inductive num_state :=
| NMinus | NZero | NInt | NDot | NFrac | NExp | NExpSign | NExpDigits.

Definition num_accepting (st : num_state) : bool :=
  match st with
  | NZero | NInt | NFrac | NExpDigits => true
  | _ => false
  end.

Definition num_step (st : num_state) (c : ascii) : option num_state :=
  match st with
  | NMinus =>
      if (code c =? 48)%N then Some NZero
      else if is_digit c then Some NInt else None
  | NZero =>
      if is_dot c then Some NDot else if is_e c then Some NExp else None
  | NInt =>
      if is_digit c then Some NInt
      else if is_dot c then Some NDot
      else if is_e c then Some NExp else None
  | NDot => if is_digit c then Some NFrac else None
  | NFrac =>
      if is_digit c then Some NFrac else if is_e c then Some NExp else None
  | NExp =>
      if is_sign c then Some NExpSign
      else if is_digit c then Some NExpDigits else None
  | NExpSign => if is_digit c then Some NExpDigits else None
  | NExpDigits => if is_digit c then Some NExpDigits else None
  end.

(** The content of a string literal: a character as written, or the code
    unit of a [\uXXXX] escape. *)
Inductive schar := Raw (c : ascii) | Unit16 (n : N).

Definition byte (n : N) : ascii := ascii_of_N n.

Definition utf8 (n : N) : list ascii :=
  if (n <? 128)%N then [byte n]
  else if (n <? 2048)%N then [byte (192 + n / 64); byte (128 + n mod 64)]
  else if (n <? 65536)%N then
    [byte (224 + n / 4096); byte (128 + (n / 64) mod 64); byte (128 + n mod 64)]
  else
    [byte (240 + n / 262144); byte (128 + (n / 4096) mod 64);
     byte (128 + (n / 64) mod 64); byte (128 + n mod 64)].

Definition is_high (n : N) : bool := (55296 <=? n)%N && (n <=? 56319)%N.
Definition is_low (n : N) : bool := (56320 <=? n)%N && (n <=? 57343)%N.

(** A high surrogate followed by a low one is one code point. *)
Fixpoint encode (cs : list schar) : list ascii :=
  match cs with
  | [] => []
  | Raw c :: rest => c :: encode rest
  | Unit16 hi :: rest =>
      match rest with
      | Unit16 lo :: rest' =>
          if is_high hi && is_low lo
          then utf8 (65536 + (hi - 55296) * 1024 + (lo - 56320)) ++ encode rest'
          else utf8 hi ++ encode rest
      | _ => utf8 hi ++ encode rest
      end
  end.

Inductive lex_state :=
| LIdle
| LString (acc : list schar)
| LEscape (acc : list schar)
| LUnicode (acc : list schar) (digits : list N)
| LNumber (st : num_state) (acc : list ascii)
| LLiteral (rest : list ascii) (tok : token).

Definition hex4 (digits : list N) : N :=
  fold_left (fun v d => (v * 16 + d)%N) digits 0%N.

Definition lex_idle (c : ascii) : option (lex_state * list token) :=
  if is_ws c then Some (LIdle, [])
  else if (code c =? 123)%N then Some (LIdle, [TLBrace])
  else if (code c =? 125)%N then Some (LIdle, [TRBrace])
  else if (code c =? 91)%N then Some (LIdle, [TLBracket])
  else if (code c =? 93)%N then Some (LIdle, [TRBracket])
  else if (code c =? 58)%N then Some (LIdle, [TColon])
  else if (code c =? 44)%N then Some (LIdle, [TComma])
  else if (code c =? 34)%N then Some (LString [], [])
  else if (code c =? 45)%N then Some (LNumber NMinus [c], [])
  else if (code c =? 48)%N then Some (LNumber NZero [c], [])
  else if is_digit c then Some (LNumber NInt [c], [])
  else if (code c =? 116)%N then
    Some (LLiteral (list_ascii_of_string "rue") TTrue, [])
  else if (code c =? 102)%N then
    Some (LLiteral (list_ascii_of_string "alse") TFalse, [])
  else if (code c =? 110)%N then
    Some (LLiteral (list_ascii_of_string "ull") TNull, [])
  else None.

Definition string_token (acc : list schar) : token :=
  TString (string_of_list_ascii (encode (rev acc))).

Definition number_token (acc : list ascii) : token :=
  TNumber (string_of_list_ascii (rev acc)).

Definition lex_step (st : lex_state) (c : ascii)
  : option (lex_state * list token) :=
  match st with
  | LIdle => lex_idle c
  | LString acc =>
      if (code c =? 34)%N then Some (LIdle, [string_token acc])
      else if (code c =? 92)%N then Some (LEscape acc, [])
      else if (code c <? 32)%N then None
      else Some (LString (Raw c :: acc), [])
  | LEscape acc =>
      let n := code c in
      if (n =? 34)%N || (n =? 92)%N || (n =? 47)%N
      then Some (LString (Raw c :: acc), [])
      else if (n =? 98)%N then Some (LString (Raw (byte 8) :: acc), [])
      else if (n =? 102)%N then Some (LString (Raw (byte 12) :: acc), [])
      else if (n =? 110)%N then Some (LString (Raw (byte 10) :: acc), [])
      else if (n =? 114)%N then Some (LString (Raw (byte 13) :: acc), [])
      else if (n =? 116)%N then Some (LString (Raw (byte 9) :: acc), [])
      else if (n =? 117)%N then Some (LUnicode acc [], [])
      else None
  | LUnicode acc digits =>
      match hex_value c with
      | None => None
      | Some d =>
          let digits' := digits ++ [d] in
          if (length digits' =? 4)%nat
          then Some (LString (Unit16 (hex4 digits') :: acc), [])
          else Some (LUnicode acc digits', [])
      end
  | LNumber nst acc =>
      match num_step nst c with
      | Some nst' => Some (LNumber nst' (c :: acc), [])
      | None =>
          if num_accepting nst then
            match lex_idle c with
            | Some (st', toks) => Some (st', number_token acc :: toks)
            | None => None
            end
          else None
      end
  | LLiteral rest tok =>
      match rest with
      | [] => None
      | [x] => if Ascii.eqb c x then Some (LIdle, [tok]) else None
      | x :: rest' => if Ascii.eqb c x then Some (LLiteral rest' tok, []) else None
      end
  end.

Definition lex_end (st : lex_state) : option (list token) :=
  match st with
  | LIdle => Some []
  | LNumber nst acc => if num_accepting nst then Some [number_token acc] else None
  | _ => None
  end.

Fixpoint lex_from (st : lex_state) (cs : list ascii) : option (list token) :=
  match cs with
  | [] => lex_end st
  | c :: rest =>
      match lex_step st c with
      | None => None
      | Some (st', toks) =>
          match lex_from st' rest with
          | None => None
          | Some toks' => Some (toks ++ toks')
          end
      end
  end.

Definition lex (s : string) : option (list token) :=
  lex_from LIdle (list_ascii_of_string s).

(** *** Parser: a pushdown automaton over the tokens *)

(** An open container: an array with the elements read so far, an object
    with the members read so far, or an object whose next value belongs to
    [key]. Elements and members are kept most recent first. *)
Inductive frame :=
| FArr (elems : list json)
| FObj (membs : list (string * json))
| FKey (membs : list (string * json)) (key : string).

Inductive mode :=
| MValue | MArrStart | MObjStart | MKey | MColon | MAfter
| MDone (v : json).

(** A repeated key keeps its place and takes the later value. *)
Fixpoint add_member (k : string) (v : json) (membs : list (string * json))
  : list (string * json) :=
  match membs with
  | [] => [(k, v)]
  | (k', v') :: rest =>
      if String.eqb k k' then (k', v) :: rest
      else (k', v') :: add_member k v rest
  end.

Definition set_member (k : string) (v : json) (membs : list (string * json))
  : list (string * json) :=
  if existsb (fun kv => String.eqb k (fst kv)) membs
  then add_member k v membs
  else (k, v) :: membs.

Definition complete (v : json) (stk : list frame) : option (mode * list frame) :=
  match stk with
  | [] => Some (MDone v, [])
  | FArr es :: r => Some (MAfter, FArr (v :: es) :: r)
  | FKey ms k :: r => Some (MAfter, FObj (set_member k v ms) :: r)
  | FObj _ :: _ => None
  end.

Definition open_value (tok : token) (stk : list frame)
  : option (mode * list frame) :=
  match tok with
  | TString s => complete (JStr s) stk
  | TNumber l => complete (JNum (of_literal l)) stk
  | TTrue => complete (JBool true) stk
  | TFalse => complete (JBool false) stk
  | TNull => complete JNull stk
  | TLBracket => Some (MArrStart, FArr [] :: stk)
  | TLBrace => Some (MObjStart, FObj [] :: stk)
  | _ => None
  end.

Definition open_key (tok : token) (stk : list frame)
  : option (mode * list frame) :=
  match tok, stk with
  | TString k, FObj ms :: r => Some (MColon, FKey ms k :: r)
  | _, _ => None
  end.

Definition parse_step (m : mode) (stk : list frame) (tok : token)
  : option (mode * list frame) :=
  match m with
  | MValue => open_value tok stk
  | MArrStart =>
      match tok, stk with
      | TRBracket, FArr es :: r => complete (JArr (rev es)) r
      | _, _ => open_value tok stk
      end
  | MObjStart =>
      match tok, stk with
      | TRBrace, FObj ms :: r => complete (JObj (rev ms)) r
      | _, _ => open_key tok stk
      end
  | MKey => open_key tok stk
  | MColon =>
      match tok with
      | TColon => Some (MValue, stk)
      | _ => None
      end
  | MAfter =>
      match tok, stk with
      | TComma, FArr _ :: _ => Some (MValue, stk)
      | TComma, FObj _ :: _ => Some (MKey, stk)
      | TRBracket, FArr es :: r => complete (JArr (rev es)) r
      | TRBrace, FObj ms :: r => complete (JObj (rev ms)) r
      | _, _ => None
      end
  | MDone _ => None
  end.

Fixpoint parse_from (m : mode) (stk : list frame) (toks : list token)
  : option json :=
  match toks with
  | [] => match m with MDone v => Some v | _ => None end
  | tok :: rest =>
      match parse_step m stk tok with
      | None => None
      | Some (m', stk') => parse_from m' stk' rest
      end
  end.

(** [JSON.parse(text)]; [None] when it throws a SyntaxError. *)
Definition parse (text : string) : option json :=
  match lex text with
  | None => None
  | Some toks => parse_from MValue [] toks
  end.

(** *** Reading values the way the page does *)

(** [v[key]] on a non-null value: own members of an object, [None]
    ([undefined]) on everything else. *)
Definition get (v : json) (key : string) : option json :=
  match v with
  | JObj ms => snd <$> find (fun kv => String.eqb key (fst kv)) ms
  | _ => None
  end.

(** JavaScript truthiness. *)
Definition truthy (v : json) : bool :=
  match v with
  | JNull => false
  | JBool b => b
  | JNum (Zero _) => false
  | JNum _ => true
  | JStr s => negb (String.eqb s "")
  | JArr _ | JObj _ => true
  end.

Definition has_own (ms : list (string * json)) (key : string) : bool :=
  existsb (fun kv => String.eqb key (fst kv)) ms.

Definition join (sep : string) (parts : list string) : string :=
  match parts with
  | [] => ""
  | p :: rest => fold_left (fun acc q => acc +:+ sep +:+ q) rest p
  end.

(** [String(v)], as string concatenation and [JSON.parse] apply it to
    an operand; [None] when it throws a TypeError (an object whose own
    member hides [toString]). *)
Fixpoint to_string (v : json) : option string :=
  match v with
  | JNull => Some "null"
  | JBool true => Some "true"
  | JBool false => Some "false"
  | JNum x => Some (number_to_string x)
  | JStr s => Some s
  | JArr es =>
      join "," <$>
        (fix items (es : list json) : option (list string) :=
           match es with
           | [] => Some []
           | e :: rest =>
               match (match e with JNull => Some "" | _ => to_string e end),
                     items rest with
               | Some s, Some ss => Some (s :: ss)
               | _, _ => None
               end
           end) es
  | JObj ms => if has_own ms "toString" then None else Some "[object Object]"
  end.

(** The same on a property that may be absent. *)
Definition to_string_opt (v : option json) : option string :=
  match v with
  | None => Some "undefined"
  | Some v => to_string v
  end.

(** *** Through [JSON.stringify] and back *)

(** What [JSON.parse] reads back from the text [JSON.stringify] writes for
    a value. The text has [null] for an infinite number and [0] for a
    negative zero. It carries everything else: a finite number by the
    decimal [Number.prototype.toString] prints, which reads back as the same
    double; a string between quotes with its escapes; the elements of an
    array and the members of an object one by one. *)
Fixpoint stored (v : json) : json :=
  match v with
  | JNum (Infinite _) => JNull
  | JNum (Zero _) => JNum (Zero false)
  | JArr es => JArr (map stored es)
  | JObj ms => JObj (map (fun kv => (fst kv, stored (snd kv))) ms)
  | _ => v
  end.

Definition infinite (v : json) : bool :=
  match v with
  | JNum (Infinite _) => true
  | _ => false
  end.

(** The value holds no number that the text cannot carry. *)
Fixpoint exact (v : json) : bool :=
  match v with
  | JNum (Infinite _) => false
  | JNum (Zero negative) => negb negative
  | JArr es => forallb exact es
  | JObj ms => forallb (fun kv => exact (snd kv)) ms
  | _ => true
  end.

End JSON.

(** ** The [generate-notes] route handler *)

Module Route.

(** A field of the request body once destructured: the property is absent
    ([undefined]), is [null], or holds a string. *)
Inductive Field := Absent | Null | Text (s : string).

(** [f == null] *)
Definition is_nullish (f : Field) : bool :=
  match f with
  | Text _ => false
  | _ => true
  end.

(** What a [catch] receives: whether it is an [Error] instance, its
    message, and its [status] property when it has one. *)
Record Thrown := {
  is_error : bool;
  message : string;
  status : option N
}.

Definition type_error (msg : string) : Thrown :=
  {| is_error := true; message := msg; status := None |}.

(** [await request.json()]: it rejects, or yields an object whose three
    fields are read by the destructuring. *)
Inductive RequestBody :=
| Unreadable (t : Thrown)
| Fields (id description diff : Field).

(** [openai.responses.stream(...)]: the call throws, or hands back the
    events of the model. *)
Inductive Upstream :=
| UpstreamThrows (t : Thrown)
| UpstreamEvents (events : list (string * JSON.json)).

Inductive Response :=
| JsonResponse (code : N) (error : string) (details : option string)
| EventStream (events : list (string * JSON.json)).

Fixpoint take_chars (n : nat) (s : string) : string :=
  match n, s with
  | S n', String c rest => String c (take_chars n' rest)
  | _, _ => EmptyString
  end.

(** [diff.length > 100 ? diff.substring(0, 100) + '...' : diff], the
    argument of the first [console.log]; [None] when reading [length] of
    [undefined] or [null] throws. *)
Definition diffPreview (diff : Field) : option string :=
  match diff with
  | Text s =>
      Some (if (100 <? String.length s)%nat then take_chars 100 s +:+ "..." else s)
  | _ => None
  end.

(** The wording of the engine's TypeError. *)
Definition length_of_nullish : Thrown :=
  type_error "Cannot read properties of undefined (reading 'length')".

(** The [catch] block of the handler. *)
Definition error_response (t : Thrown) : Response :=
  let errorMessage :=
    if is_error t then message t else "Unknown error generating notes" in
  let errorStatus := match status t with Some s => s | None => 500%N end in
  JsonResponse errorStatus "Failed to generate notes" (Some errorMessage).

Definition POST (body : RequestBody) (upstream : Upstream) : Response :=
  match body with
  | Unreadable t => error_response t
  | Fields id description diff =>
      match diffPreview diff with
      | None => error_response length_of_nullish
      | Some _ =>
          if is_nullish id || is_nullish description || is_nullish diff
          then JsonResponse 400 "Missing required fields" None
          else
            match upstream with
            | UpstreamThrows t => error_response t
            | UpstreamEvents events => EventStream events
            end
      end
  end.

Definition response_code (r : Response) : N :=
  match r with
  | JsonResponse code _ _ => code
  | EventStream _ => 200%N
  end.

End Route.

(** ** What is left to the engine *)

(** The wording of the errors the JavaScript engine throws is its own:
    the message of the SyntaxError of [JSON.parse], which depends on the
    text it was given, and the message of the TypeError of reading a
    property of [null]. The page shows these messages, so its functions
    take the engine they run on, and what is proved of them holds for
    every engine. *)
Class Engine := {
  syntax_error_message : string → string;
  null_read_message : string
}.

(** ** The page: note entries, the stream reader, the batch, the cache *)

Module Page.
Import JSON.

Record DiffItem := {
  id : string;
  description : string;
  diff : string;
  url : string
}.

(** A value of [NotesState]. [data] is whatever [JSON.parse] handed over,
    [JNull] for [null]. *)
Record NoteEntry := {
  loading : bool;
  error : option string;
  data : json
}.

(** A value of [NotesCache]. *)
Record CacheEntry := {
  timestamp : Z;
  cached_data : json
}.

(** The React state of [Home] that the note workflow touches. *)
Record AppState := {
  notes : gmap string NoteEntry;
  jsonAccumulator : gmap string string;
  processingAll : bool
}.

Definition initial : AppState :=
  {| notes := ∅; jsonAccumulator := ∅; processingAll := false |}.

(** A state setter call. The first two are the functional updaters
    [prev => ({...prev, [diffId]: x})]; [ReplaceNotes] is
    [setNotes(loadedNotes)]. *)
Inductive Update :=
| SetJsonAccumulator (diffId : string) (text : string)
| SetNotes (diffId : string) (entry : NoteEntry)
| ReplaceNotes (loaded : gmap string NoteEntry)
| SetProcessingAll (b : bool).

Definition apply (st : AppState) (u : Update) : AppState :=
  match u with
  | SetJsonAccumulator k text =>
      {| notes := notes st;
         jsonAccumulator := <[k := text]> (jsonAccumulator st);
         processingAll := processingAll st |}
  | SetNotes k entry =>
      {| notes := <[k := entry]> (notes st);
         jsonAccumulator := jsonAccumulator st;
         processingAll := processingAll st |}
  | ReplaceNotes loaded =>
      {| notes := loaded;
         jsonAccumulator := jsonAccumulator st;
         processingAll := processingAll st |}
  | SetProcessingAll b =>
      {| notes := notes st;
         jsonAccumulator := jsonAccumulator st;
         processingAll := b |}
  end.

Definition run (us : list Update) (st : AppState) : AppState :=
  fold_left apply us st.

(** *** Reading an entry *)

(** Truthiness of [entry.error], a string or [null]. *)
Definition has_error (e : NoteEntry) : bool :=
  match error e with
  | Some msg => negb (String.eqb msg "")
  | None => false
  end.

(** [notes[id]?.data && !notes[id]?.loading && !notes[id]?.error] *)
Definition generated (entry : option NoteEntry) : bool :=
  match entry with
  | Some e => truthy (data e) && negb (loading e) && negb (has_error e)
  | None => false
  end.

(** [notes[id]?.loading] *)
Definition in_flight (entry : option NoteEntry) : bool :=
  match entry with
  | Some e => loading e
  | None => false
  end.

(** The four statuses of an entry, told apart the way the page tells them
    apart when it renders, skips and saves. *)
Inductive Status := Idle | Loading | Failed | Done.

Definition status_of (entry : option NoteEntry) : Status :=
  match entry with
  | None => Idle
  | Some e =>
      if loading e then Loading
      else if has_error e then Failed
      else if truthy (data e) then Done
      else Idle
  end.

(** *** The cache in localStorage *)

Definition CACHE_EXPIRATION : Z := 24 * 60 * 60 * 1000.

(** The item stored under ['diffDigestNotes']: nothing, a text that
    [JSON.parse] rejects, or the text of a cache object, kept as the cache
    object [JSON.parse] reads back from it. *)
Inductive StorageItem :=
| NoItem
| Unparsable
| Stored (cache : gmap string CacheEntry).

(** The entry written for [noteData], if one is: [JSON.stringify] writes
    its data, which is then read back as [stored] of it. *)
Definition to_cache (now : Z) (noteData : NoteEntry) : option CacheEntry :=
  if negb (loading noteData) && negb (has_error noteData) && truthy (data noteData)
  then Some {| timestamp := now; cached_data := stored (data noteData) |}
  else None.

(** [saveNotesToCache], run at time [now] on the notes of the render;
    [writable] is whether [localStorage.setItem] succeeds. *)
Definition saveNotesToCache (notes : gmap string NoteEntry) (now : Z)
    (writable : bool) (storage : StorageItem) : StorageItem :=
  let cacheData := omap (to_cache now) notes in
  if writable then Stored cacheData else storage.

Definition from_cache (now : Z) (cacheEntry : CacheEntry) : option NoteEntry :=
  if (now - timestamp cacheEntry <? CACHE_EXPIRATION)%Z
  then Some {| loading := false; error := None; data := cached_data cacheEntry |}
  else None.

(** [loadNotesFromCache], run at time [now]. *)
Definition loadNotesFromCache (storage : StorageItem) (now : Z) : list Update :=
  match storage with
  | Stored cachedNotes => [ReplaceNotes (omap (from_cache now) cachedNotes)]
  | NoItem | Unparsable => []
  end.

(** The entry stored for a diff. *)
Definition stored_entry (storage : StorageItem) (diffId : string)
  : option CacheEntry :=
  match storage with
  | Stored cache => cache !! diffId
  | NoItem | Unparsable => None
  end.

(** *** One generation attempt *)

(** What a [catch] receives. *)
Inductive Thrown :=
| ErrorObject (message : string)
| OtherValue.

Inductive StreamEnd :=
| Closed
| ReadFails (t : Thrown).

(** The body of the response: the decoded chunks [reader.read()] delivers
    one by one, then the end of the stream. *)
Record ResponseBody := {
  chunks : list string;
  ending : StreamEnd
}.

Inductive FetchOutcome :=
| FetchFails (t : Thrown)
| Responds (status : N) (body : option ResponseBody).

Definition response_ok (status : N) : bool :=
  (200 <=? status)%N && (status <=? 299)%N.

Section OnAnEngine.
Context `{Engine}.

(** What [JSON.parse(text)] throws when it rejects [text], and what
    [eventData.event] throws on a [null] envelope. *)
Definition syntax_error (text : string) : Thrown :=
  ErrorObject (syntax_error_message text).
Definition null_envelope : Thrown := ErrorObject null_read_message.

Definition empty_notes : json :=
  JObj [("developerNote", JStr ""); ("marketingNote", JStr "")].

Definition loading_entry : NoteEntry :=
  {| loading := true; error := None; data := empty_notes |}.

(** [error instanceof Error ? error.message : 'Failed to generate notes'] *)
Definition failure_message (t : Thrown) : string :=
  match t with
  | ErrorObject message => message
  | OtherValue => "Failed to generate notes"
  end.

Definition error_entry (t : Thrown) : NoteEntry :=
  {| loading := false; error := Some (failure_message t); data := JNull |}.

Definition done_entry (completedData : json) : NoteEntry :=
  {| loading := false; error := None; data := completedData |}.

(** [v || ''] on a property that may be absent. *)
Definition or_empty (v : option json) : json :=
  match v with
  | Some v => if truthy v then v else JStr ""
  | None => JStr ""
  end.

Definition partial_entry (parsedData : json) : NoteEntry :=
  {| loading := true;
     error := None;
     data := JObj [("developerNote", or_empty (get parsedData "developerNote"));
                   ("marketingNote", or_empty (get parsedData "marketingNote"))] |}.

(** The repair of the accumulated text before the speculative parse. *)
Definition fix_json (updatedJson : string) : string :=
  let fixedJson :=
    if Str.endsWith updatedJson "}" then updatedJson else updatedJson +:+ "}" in
  if Str.startsWith fixedJson "{" then fixedJson else "{" +:+ fixedJson.

Definition looks_complete (updatedJson : string) : bool :=
  Str.includes updatedJson "}" &&
  Str.includes updatedJson (Str.quoted "developerNote") &&
  Str.includes updatedJson (Str.quoted "marketingNote").

(** The speculative parse of the text accumulated so far: the entry to
    show, or [None] when nothing is shown. *)
Definition attempt_partial (updatedJson : string) : option NoteEntry :=
  if looks_complete updatedJson then
    match parse (fix_json updatedJson) with
    | Some JNull | None => None
    | Some parsedData => Some (partial_entry parsedData)
    end
  else None.

(** [jsonAccumulator[diffId] || ''], read from the snapshot. *)
Definition currentJson (snap : AppState) (diffId : string) : string :=
  default "" (jsonAccumulator snap !! diffId).

(** The handler of ['response.output_text.delta']. *)
Definition handle_delta (snap : AppState) (diffId : string) (eventData : json)
  : list Update :=
  match get eventData "data" with
  | None | Some JNull => []
  | Some d =>
      match to_string_opt (get d "delta") with
      | None => []
      | Some delta =>
          let updatedJson := currentJson snap diffId +:+ delta in
          SetJsonAccumulator diffId updatedJson ::
          match attempt_partial updatedJson with
          | Some entry => [SetNotes diffId entry]
          | None => []
          end
      end
  end.

(** The handler of ['response.output_text.done']. *)
Definition handle_done (diffId : string) (eventData : json) : list Update :=
  match get eventData "data" with
  | None | Some JNull => []
  | Some d =>
      match to_string_opt (get d "text") with
      | None => []
      | Some text =>
          match parse text with
          | Some completedData => [SetNotes diffId (done_entry completedData)]
          | None => []
          end
      end
  end.

Definition DELTA : string := "response.output_text.delta".
Definition DONE : string := "response.output_text.done".

Definition event_is (eventData : json) (name : string) : bool :=
  match get eventData "event" with
  | Some (JStr s) => String.eqb s name
  | _ => false
  end.

(** One frame of the stream: the updates it causes, and what it throws
    out of the reading loop, if anything. *)
Definition handle_line (snap : AppState) (diffId : string) (line : string)
  : list Update * option Thrown :=
  if Str.startsWith line "data: " then
    match parse (Str.substring_from 6 line) with
    | None => ([], Some (syntax_error (Str.substring_from 6 line)))
    | Some JNull => ([], Some null_envelope)
    | Some eventData =>
        ((if event_is eventData DELTA then handle_delta snap diffId eventData else [])
         ++
         (if event_is eventData DONE then handle_done diffId eventData else []),
         None)
    end
  else ([], None).

Fixpoint handle_lines (snap : AppState) (diffId : string) (lines : list string)
  : list Update * option Thrown :=
  match lines with
  | [] => ([], None)
  | line :: rest =>
      match handle_line snap diffId line with
      | (us, Some t) => (us, Some t)
      | (us, None) =>
          let '(us', r) := handle_lines snap diffId rest in (us ++ us', r)
      end
  end.

(** [lines.pop() || ''] and the lines left after it. *)
Definition pop_last (lines : list string) : list string * string :=
  (removelast lines, List.last lines "").

(** The [while (true)] loop over [reader.read()]. *)
Fixpoint read_loop (snap : AppState) (diffId : string) (partialData : string)
    (chunks : list string) (ending : StreamEnd) : list Update * option Thrown :=
  match chunks with
  | [] =>
      match ending with
      | Closed => ([], None)
      | ReadFails t => ([], Some t)
      end
  | chunk :: rest =>
      let '(lines, partialData') := pop_last (Str.split_frames (partialData +:+ chunk)) in
      match handle_lines snap diffId lines with
      | (us, Some t) => (us, Some t)
      | (us, None) =>
          let '(us', r) := read_loop snap diffId partialData' rest ending in
          (us ++ us', r)
      end
  end.

(** The [try] block of [generateNotes]. *)
Definition attempt (snap : AppState) (diffId : string) (net : FetchOutcome)
  : list Update * option Thrown :=
  match net with
  | FetchFails t => ([], Some t)
  | Responds status body =>
      if negb (response_ok status)
      then ([], Some (ErrorObject ("HTTP error! status: " +:+ Str.of_N status)))
      else
        match body with
        | None => ([], Some (ErrorObject "No response body"))
        | Some b => read_loop snap diffId "" (chunks b) (ending b)
        end
  end.

(** [generateNotes(diffId, description, diff)], called from the render
    whose state is [snap], with [net] the answer to its one request: the
    state setter calls it makes, in order. *)
Definition generateNotes (snap : AppState) (diffId description diff : string)
    (net : FetchOutcome) : list Update :=
  if generated (notes snap !! diffId) then []
  else
    SetJsonAccumulator diffId "" ::
    SetNotes diffId loading_entry ::
    match attempt snap diffId net with
    | (us, None) => us
    | (us, Some t) => us ++ [SetNotes diffId (error_entry t)]
    end.

(** *** The batch *)

Inductive BatchEvent :=
| Invoke (diffId : string)
| Upd (u : Update)
| Return (diffId : string)
| Delay (ms : N).

(** One turn of the [for] loop, for an item and the answer the network
    has for it. *)
Definition batch_item (snap : AppState) (job : DiffItem * FetchOutcome)
  : list BatchEvent :=
  let '(d, net) := job in
  if generated (notes snap !! id d) then []
  else if in_flight (notes snap !! id d) then []
  else
    Invoke (id d) ::
    map Upd (generateNotes snap (id d) (description d) (diff d) net)
    ++ [Return (id d); Delay 1000].

(** [generateAllNotes], called from the render whose state is [snap]. *)
Definition generateAllNotes (snap : AppState) (jobs : list (DiffItem * FetchOutcome))
  : list BatchEvent :=
  if processingAll snap || (length jobs =? 0)%nat then []
  else
    Upd (SetProcessingAll true) ::
    concat (map (batch_item snap) jobs)
    ++ [Upd (SetProcessingAll false)].

End OnAnEngine.

Definition updates_of (evs : list BatchEvent) : list Update :=
  omap (fun ev => match ev with Upd u => Some u | _ => None end) evs.

Definition invocations_of (evs : list BatchEvent) : list string :=
  omap (fun ev => match ev with Invoke k => Some k | _ => None end) evs.

End Page.

(** ** What a stream delivers, and where a state setter call comes from *)

Module Trace.
Import JSON Page.

(** The complete frames the reading loop cuts out of the chunks, given the
    text held over from before. *)
Fixpoint frames_of (partialData : string) (chunks : list string) : list string :=
  match chunks with
  | [] => []
  | chunk :: rest =>
      let '(lines, partialData') := pop_last (Str.split_frames (partialData +:+ chunk)) in
      lines ++ frames_of partialData' rest
  end.

Definition frames_delivered (net : FetchOutcome) : list string :=
  match net with
  | Responds _ (Some b) => frames_of "" (chunks b)
  | _ => []
  end.

(** [line] is a frame whose envelope names the event [name] and whose
    payload holds [text] under [field]. *)
Definition frame_of (name field line text : string) : Prop :=
  Str.startsWith line "data: " = true ∧
  ∃ eventData d,
    parse (Str.substring_from 6 line) = Some eventData ∧
    event_is eventData name = true ∧
    get eventData "data" = Some d ∧
    to_string_opt (get d field) = Some text.

Definition done_frame : string → string → Prop := frame_of DONE "text".
Definition delta_frame : string → string → Prop := frame_of DELTA "delta".

(** An entry the page shows as finished: not loading, no error, data
    present. *)
Definition is_done (e : NoteEntry) : Prop :=
  loading e = false ∧ error e = None ∧ data e ≠ JNull.

(** The data of [e] is the parse of the text of a done frame among
    [frames]. *)
Definition from_done_frame (frames : list string) (e : NoteEntry) : Prop :=
  ∃ line text,
    line ∈ frames ∧ done_frame line text ∧ parse text = Some (data e).

(** The setter calls one attempt for [diffId] can make over [frames]. *)
Inductive issued (snap : AppState) (diffId : string) (frames : list string)
  : Update → Prop :=
| issued_reset_accumulator :
    issued snap diffId frames (SetJsonAccumulator diffId "")
| issued_reset :
    issued snap diffId frames (SetNotes diffId loading_entry)
| issued_delta line delta :
    line ∈ frames →
    delta_frame line delta →
    issued snap diffId frames
      (SetJsonAccumulator diffId (currentJson snap diffId +:+ delta))
| issued_partial line delta entry :
    line ∈ frames →
    delta_frame line delta →
    attempt_partial (currentJson snap diffId +:+ delta) = Some entry →
    issued snap diffId frames (SetNotes diffId entry)
| issued_done line text completedData :
    line ∈ frames →
    done_frame line text →
    parse text = Some completedData →
    issued snap diffId frames (SetNotes diffId (done_entry completedData))
| issued_error t :
    issued snap diffId frames (SetNotes diffId (error_entry t)).

(** The failures of the transport: the request is rejected, the response
    is not OK, or it has no body. *)
Definition transport_failure (net : FetchOutcome) : option Thrown :=
  match net with
  | FetchFails t => Some t
  | Responds status body =>
      if negb (response_ok status)
      then Some (ErrorObject ("HTTP error! status: " +:+ Str.of_N status))
      else match body with
           | None => Some (ErrorObject "No response body")
           | Some _ => None
           end
  end.

(** The largest number of invocations open at once along a trace,
    starting from [open] of them. *)
Fixpoint max_in_flight (open : nat) (evs : list BatchEvent) : nat :=
  match evs with
  | [] => open
  | Invoke _ :: rest => Nat.max open (max_in_flight (S open) rest)
  | Return _ :: rest => Nat.max open (max_in_flight (Nat.pred open) rest)
  | _ :: rest => max_in_flight open rest
  end.

(** The largest number of invocations for [diffId] open at once along a
    trace, starting from [open] of them. *)
Fixpoint max_in_flight_of (diffId : string) (open : nat) (evs : list BatchEvent)
  : nat :=
  match evs with
  | [] => open
  | Invoke k :: rest =>
      if String.eqb k diffId
      then Nat.max open (max_in_flight_of diffId (S open) rest)
      else max_in_flight_of diffId open rest
  | Return k :: rest =>
      if String.eqb k diffId
      then Nat.max open (max_in_flight_of diffId (Nat.pred open) rest)
      else max_in_flight_of diffId open rest
  | _ :: rest => max_in_flight_of diffId open rest
  end.

(** The items a batch does not skip, as the loop decides it. *)
Definition due (snap : AppState) (job : DiffItem * FetchOutcome) : bool :=
  negb (generated (notes snap !! id job.1)) &&
  negb (in_flight (notes snap !! id job.1)).

Section OnAnEngine.
Context `{Engine}.

(** A click on the button of one diff, in the render whose state is
    [snap]: [onClick={() => generateNotes(item.id, item.description,
    item.diff)}], from its invocation to its return. *)
Definition click (snap : AppState) (job : DiffItem * FetchOutcome)
  : list BatchEvent :=
  Invoke (id job.1) ::
  map Upd (generateNotes snap (id job.1) (description job.1) (diff job.1) job.2)
  ++ [Return (id job.1)].

(** The store when the batch loop reaches its [k]-th item. *)
Definition state_before (snap : AppState) (jobs : list (DiffItem * FetchOutcome))
    (k : nat) (st : AppState) : AppState :=
  run (updates_of (Upd (SetProcessingAll true) ::
                   concat (map (batch_item snap) (take k jobs)))) st.

(** Whatever changes the state: a cache load, or one setter call of some
    invocation of [generateNotes] or of [generateAllNotes], made from any
    render. *)
Inductive Action :=
| Load (storage : StorageItem) (now : Z)
| Generate (snap : AppState) (diffId description diff : string)
    (net : FetchOutcome) (n : nat)
| Batch (snap : AppState) (jobs : list (DiffItem * FetchOutcome)) (n : nat).

Definition act (st : AppState) (a : Action) : AppState :=
  match a with
  | Load storage now => run (loadNotesFromCache storage now) st
  | Generate snap diffId description diff net n =>
      match generateNotes snap diffId description diff net !! n with
      | Some u => apply st u
      | None => st
      end
  | Batch snap jobs n =>
      match updates_of (generateAllNotes snap jobs) !! n with
      | Some u => apply st u
      | None => st
      end
  end.

Definition exec (actions : list Action) : AppState :=
  fold_left act actions initial.

End OnAnEngine.

(** What a loading entry must look like: no error, and data that is an
    object with the two notes. *)
Definition entry_ok (e : NoteEntry) : Prop :=
  loading e = true →
  error e = None ∧
  data e ≠ JNull ∧
  ∃ dev mkt, data e = JObj [("developerNote", dev); ("marketingNote", mkt)].

Definition notes_ok (ns : gmap string NoteEntry) : Prop :=
  ∀ k e, ns !! k = Some e → entry_ok e.

Definition update_ok (u : Update) : Prop :=
  match u with
  | SetNotes _ e => entry_ok e
  | ReplaceNotes loaded => notes_ok loaded
  | _ => True
  end.

End Trace.

(** ** Frames on the wire, and the kinds of frame the reader tells apart *)

Module Wire.
Import JSON Page.

Definition blank_line : string := String Str.LF (String Str.LF EmptyString).

(** What the route enqueues for one event, [data] being the
    [JSON.stringify] text of its envelope. *)
Definition sse_frame (data : string) : string :=
  "data: " +:+ data +:+ blank_line.

(** The text has no line feed, as is the case of every [JSON.stringify]
    text, which escapes the line feeds of its strings. *)
Fixpoint no_line_feed (s : string) : bool :=
  match s with
  | EmptyString => true
  | String c rest => negb (Ascii.eqb c Str.LF) && no_line_feed rest
  end.

(** The text of a whole stream. *)
Definition stream_text (chunks : list string) : string :=
  fold_right String.append EmptyString chunks.

Inductive FrameKind :=
| Ignored      (* no [data: ] prefix *)
| Malformed    (* the envelope does not parse, or is [null] *)
| DeltaEvent
| DoneEvent
| OtherEvent.

(** The tests [handle_line] makes on a frame, in its order. *)
Definition classify (line : string) : FrameKind :=
  if Str.startsWith line "data: " then
    match parse (Str.substring_from 6 line) with
    | None | Some JNull => Malformed
    | Some eventData =>
        if event_is eventData DELTA then DeltaEvent
        else if event_is eventData DONE then DoneEvent
        else OtherEvent
    end
  else Ignored.

(** The segments of the whole text of a stream that a blank line closes:
    all of [split] but the last. *)
Definition closed_segments (chunks : list string) : list string :=
  removelast (Str.split_frames (stream_text chunks)).

(** [cur] put in front of the first segment. *)
Definition prepend (cur : string) (segments : list string) : list string :=
  match segments with
  | x :: r => (cur +:+ x) :: r
  | [] => []
  end.

(** How the reading loop ends once its frames are handled. *)
Definition finish (handled : list Update * option Thrown) (ending : StreamEnd)
  : list Update * option Thrown :=
  match handled with
  | (us, Some t) => (us, Some t)
  | (us, None) =>
      (us, match ending with Closed => None | ReadFails t => Some t end)
  end.

End Wire.

(** ** The non-streaming route handler *)

Module Legacy.

(** [openai.responses.parse(...)]: the call throws, or hands back a
    response whose [output_parsed] is the notes object. *)
Inductive Upstream :=
| ParseThrows (t : Route.Thrown)
| Parsed (output_parsed : JSON.json).

Inductive Response :=
| JsonError (code : N) (error : string) (details : option string)
| JsonBody (body : JSON.json).

(** The [catch] block of the handler. *)
Definition error_response (t : Route.Thrown) : Response :=
  let errorMessage :=
    if Route.is_error t then Route.message t else "Unknown error generating notes" in
  let errorStatus := match Route.status t with Some s => s | None => 500%N end in
  JsonError errorStatus "Failed to generate notes" (Some errorMessage).

Definition POST (body : Route.RequestBody) (upstream : Upstream) : Response :=
  match body with
  | Route.Unreadable t => error_response t
  | Route.Fields id description diff =>
      match Route.diffPreview diff with
      | None => error_response Route.length_of_nullish
      | Some _ =>
          if Route.is_nullish id || Route.is_nullish description || Route.is_nullish diff
          then JsonError 400 "Missing required fields" None
          else
            match upstream with
            | ParseThrows t => error_response t
            | Parsed output_parsed => JsonBody output_parsed
            end
      end
  end.

(** The status, error and details of an answer that is an error. *)
Definition failure (r : Response) : option (N * string * option string) :=
  match r with
  | JsonError code error details => Some (code, error, details)
  | JsonBody _ => None
  end.

Definition route_failure (r : Route.Response) : option (N * string * option string) :=
  match r with
  | Route.JsonResponse code error details => Some (code, error, details)
  | Route.EventStream _ => None
  end.

End Legacy.

(** ** The diff pager *)

Module Pager.
Import JSON.

(** A value of [ApiResponse]. *)
Record ApiResponse := {
  data_diffs : list Page.DiffItem;
  data_nextPage : option N;
  data_currentPage : N;
  data_perPage : N
}.

(** The React state of [Home] that the pager touches. *)
Record PagerState := {
  diffs : list Page.DiffItem;
  isLoading : bool;
  error : option string;
  currentPage : N;
  nextPage : option N;
  initialFetchDone : bool
}.

(** A state setter call. [SetDiffs page fetched] is the functional updater
    [prev => page === 1 ? fetched : [...prev, ...fetched]]; [ClearDiffs] is
    [setDiffs([])]. *)
Inductive Update :=
| SetIsLoading (b : bool)
| SetError (e : option string)
| SetDiffs (page : N) (fetched : list Page.DiffItem)
| ClearDiffs
| SetCurrentPage (n : N)
| SetNextPage (n : option N)
| SetInitialFetchDone (b : bool).

Definition apply (st : PagerState) (u : Update) : PagerState :=
  match u with
  | SetIsLoading b =>
      {| diffs := diffs st; isLoading := b; error := error st;
         currentPage := currentPage st; nextPage := nextPage st;
         initialFetchDone := initialFetchDone st |}
  | SetError e =>
      {| diffs := diffs st; isLoading := isLoading st; error := e;
         currentPage := currentPage st; nextPage := nextPage st;
         initialFetchDone := initialFetchDone st |}
  | SetDiffs page fetched =>
      {| diffs := if (page =? 1)%N then fetched else diffs st ++ fetched;
         isLoading := isLoading st; error := error st;
         currentPage := currentPage st; nextPage := nextPage st;
         initialFetchDone := initialFetchDone st |}
  | ClearDiffs =>
      {| diffs := []; isLoading := isLoading st; error := error st;
         currentPage := currentPage st; nextPage := nextPage st;
         initialFetchDone := initialFetchDone st |}
  | SetCurrentPage n =>
      {| diffs := diffs st; isLoading := isLoading st; error := error st;
         currentPage := n; nextPage := nextPage st;
         initialFetchDone := initialFetchDone st |}
  | SetNextPage n =>
      {| diffs := diffs st; isLoading := isLoading st; error := error st;
         currentPage := currentPage st; nextPage := n;
         initialFetchDone := initialFetchDone st |}
  | SetInitialFetchDone b =>
      {| diffs := diffs st; isLoading := isLoading st; error := error st;
         currentPage := currentPage st; nextPage := nextPage st;
         initialFetchDone := b |}
  end.

Definition run (us : list Update) (st : PagerState) : PagerState :=
  fold_left apply us st.

(** The answer to the request for a page: the request is rejected; the
    response is not OK, with the body [response.json()] gives ([None] when
    it rejects); the response is OK but [response.json()] rejects; or the
    response is OK with its data. *)
Inductive Outcome :=
| Rejected (t : Page.Thrown)
| NotOk (status : N) (errorData : option json)
| Unreadable (t : Page.Thrown)
| Ok (data : ApiResponse).

(** [`/api/sample-diffs?page=${page}&per_page=10`] *)
Definition request_url (page : N) : string :=
  "/api/sample-diffs?page=" +:+ Str.of_N page +:+ "&per_page=10".

(** [a || b] on properties that may be absent. *)
Definition first_truthy (a b : option json) : option json :=
  match a with
  | Some v => if truthy v then Some v else
                match b with
                | Some w => if truthy w then Some w else None
                | None => None
                end
  | None => match b with
            | Some w => if truthy w then Some w else None
            | None => None
            end
  end.

(** The wording of the engine's TypeError when a message has no string
    form. *)
Definition no_primitive : string := "Cannot convert object to primitive value".

(** The message of what the [!response.ok] branch throws:
    [errorData.error || errorData.details || errorMsg] inside its own
    [try], then [new Error(errorMsg)]. *)
Definition not_ok_message (status : N) (errorData : option json) : string :=
  let errorMsg := "HTTP error! status: " +:+ Str.of_N status in
  match errorData with
  | None | Some JNull => errorMsg
  | Some v =>
      match first_truthy (get v "error") (get v "details") with
      | None => errorMsg
      | Some m => default no_primitive (to_string m)
      end
  end.

(** [err instanceof Error ? err.message : "An unknown error occurred"] *)
Definition caught_message (t : Page.Thrown) : string :=
  match t with
  | Page.ErrorObject message => message
  | Page.OtherValue => "An unknown error occurred"
  end.

(** [fetchDiffs(page)], called from the render whose state is [snap]: the
    state setter calls it makes, in order. *)
Definition fetchDiffs (snap : PagerState) (page : N) (net : Outcome) : list Update :=
  SetIsLoading true ::
  SetError None ::
  match net with
  | Rejected t => [SetError (Some (caught_message t))]
  | NotOk status errorData => [SetError (Some (not_ok_message status errorData))]
  | Unreadable t => [SetError (Some (caught_message t))]
  | Ok data =>
      SetDiffs page (data_diffs data) ::
      SetCurrentPage (data_currentPage data) ::
      SetNextPage (data_nextPage data) ::
      (if initialFetchDone snap then [] else [SetInitialFetchDone true])
  end
  ++ [SetIsLoading false].

Definition handleFetchClick (snap : PagerState) (net : Outcome) : list Update :=
  ClearDiffs :: fetchDiffs snap 1 net.

(** [if (nextPage) fetchDiffs(nextPage)]: nothing on [null] and on 0. *)
Definition handleLoadMoreClick (snap : PagerState) (net : Outcome) : list Update :=
  match nextPage snap with
  | Some p => if (p =? 0)%N then [] else fetchDiffs snap p net
  | None => []
  end.

(** The answer is not an OK response with its data. *)
Definition failed (net : Outcome) : Prop :=
  match net with
  | Ok _ => False
  | _ => True
  end.

(** The answer names a further page that load more will append. *)
Definition has_more (data : ApiResponse) : Prop :=
  ∃ p, data_nextPage data = Some p ∧ p ≠ 0%N ∧ p ≠ 1%N.

Definition initial : PagerState :=
  {| diffs := []; isLoading := false; error := None;
     currentPage := 1; nextPage := None; initialFetchDone := false |}.

(** A visit: the click on the fetch button, then one click on the load
    more button per further answer, each click made from the render of the
    state the previous one left. *)
Definition visit (first : Outcome) (more : list Outcome) : PagerState :=
  fold_left (fun st net => run (handleLoadMoreClick st net) st) more
    (run (handleFetchClick initial first) initial).

End Pager.

(** ** Sample data *)

Module Sample.
Import JSON Page.

Definition line (envelope : string) : string := "data: " +:+ Str.dq envelope.

(** A line followed by the blank line that ends a frame. *)
Definition frame (line : string) : string :=
  line +:+ String Str.LF (String Str.LF EmptyString).

(** Two delta frames whose fragments join into the notes of the done
    frame. *)
Definition delta1 : string := Str.dq "{'developerNote':'a',".
Definition delta2 : string := Str.dq "'marketingNote':'b'}".

Definition delta_line1 : string :=
  line "{'event':'response.output_text.delta','data':{'delta':'{\'developerNote\':\'a\','}}".
Definition delta_line2 : string :=
  line "{'event':'response.output_text.delta','data':{'delta':'\'marketingNote\':\'b\'}'}}".
Definition done_line3 : string :=
  line "{'event':'response.output_text.done','data':{'text':'{\'developerNote\':\'a\',\'marketingNote\':\'b\'}'}}".

(** A done frame whose text stops in the middle of a string. *)
Definition truncated_text : string := Str.dq "{'developerNote':'a".
Definition truncated_done_line : string :=
  line "{'event':'response.output_text.done','data':{'text':'{\'developerNote\':\'a'}}".

Definition notes_ab : json :=
  JObj [("developerNote", JStr "a"); ("marketingNote", JStr "b")].

Definition two_deltas : FetchOutcome :=
  Responds 200 (Some {| chunks := [frame delta_line1; frame delta_line2];
                        ending := Closed |}).

Definition full_stream : FetchOutcome :=
  Responds 200 (Some {| chunks := [frame delta_line1;
                                   frame delta_line2 +:+ frame done_line3];
                        ending := Closed |}).

Definition with_entry (k : string) (e : NoteEntry) : AppState :=
  {| notes := {[ k := e ]}; jsonAccumulator := ∅; processingAll := false |}.

Definition item (k : string) : DiffItem :=
  {| id := k; description := "Fix caching bug"; diff := "patch"; url := EmptyString |}.

(** An engine for the examples. *)
Definition engine : Engine :=
  {| syntax_error_message text := "Unexpected token in JSON: " +:+ text;
     null_read_message := "Cannot read properties of null (reading 'event')" |}.

End Sample.

(** ** More sample data *)

Module Cases.
Import JSON Page.

(** The envelopes of [Sample.delta_line1], [Sample.delta_line2] and
    [Sample.done_line3], as the route stringifies them. *)
Definition payloads : list string :=
  [Str.dq "{'event':'response.output_text.delta','data':{'delta':'{\'developerNote\':\'a\','}}";
   Str.dq "{'event':'response.output_text.delta','data':{'delta':'\'marketingNote\':\'b\'}'}}";
   Str.dq "{'event':'response.output_text.done','data':{'text':'{\'developerNote\':\'a\',\'marketingNote\':\'b\'}'}}"].

(** The same stream as [Sample.full_stream], cut elsewhere. *)
Definition chunks_by_frame : list string :=
  [Sample.frame Sample.delta_line1;
   Sample.frame Sample.delta_line2 +:+ Sample.frame Sample.done_line3].

Definition chunks_cut_mid_frame : list string :=
  ["data: {"; Str.substring_from 7 (Wire.stream_text chunks_by_frame)].

(** A frame whose envelope stops short, then the done frame. *)
Definition broken_line : string := Sample.line "{'event':".

Definition broken_stream : list string :=
  [Sample.frame Sample.delta_line1;
   Sample.frame broken_line +:+ Sample.frame Sample.done_line3].

Definition snapshot : AppState :=
  {| notes := <["1" := done_entry Sample.notes_ab]> {["2" := loading_entry]};
     jsonAccumulator := ∅;
     processingAll := false |}.

Definition jobs : list (DiffItem * FetchOutcome) :=
  [(Sample.item "1", Sample.full_stream); (Sample.item "2", Sample.full_stream);
   (Sample.item "3", Responds 503 None); (Sample.item "4", Sample.full_stream)].

Definition page (n : N) (next : option N) : Pager.ApiResponse :=
  {| Pager.data_diffs := [Sample.item (Str.of_N n)];
     Pager.data_nextPage := next;
     Pager.data_currentPage := n;
     Pager.data_perPage := 10 |}.

End Cases.

(** ** Properties *)

Import JSON Page Trace.

(** *** Running state setter calls *)

Lemma run_app (us vs : list Update) (st : AppState) :
  run (us ++ vs) st = run vs (run us st).
Proof. unfold run. apply fold_left_app. Qed.

Lemma run_cons (u : Update) (us : list Update) (st : AppState) :
  run (u :: us) st = run us (apply st u).
Proof. reflexivity. Qed.

Lemma run_snoc (us : list Update) (u : Update) (st : AppState) :
  run (us ++ [u]) st = apply (run us st) u.
Proof. rewrite run_app. reflexivity. Qed.

(** *** Where the setter calls of an attempt come from *)

Lemma attempt_partial_shape text entry :
  attempt_partial text = Some entry →
  ∃ parsedData, entry = partial_entry parsedData.
Proof.
  unfold attempt_partial. destruct (looks_complete text); [|done].
  destruct (parse (fix_json text)) as [[]|]; intros [= <-]; by eexists.
Qed.

Lemma handle_delta_inv snap k eventData u :
  u ∈ handle_delta snap k eventData →
  ∃ d delta,
    get eventData "data" = Some d ∧
    to_string_opt (get d "delta") = Some delta ∧
    (u = SetJsonAccumulator k (currentJson snap k +:+ delta) ∨
     ∃ entry, attempt_partial (currentJson snap k +:+ delta) = Some entry ∧
              u = SetNotes k entry).
Proof.
  unfold handle_delta.
  destruct (get eventData "data") as [d|] eqn:Hd; [|by intros ?%elem_of_nil].
  destruct (to_string_opt (get d "delta")) as [delta|] eqn:Hdelta.
  - assert (u ∈ SetJsonAccumulator k (currentJson snap k +:+ delta) ::
                match attempt_partial (currentJson snap k +:+ delta) with
                | Some entry => [SetNotes k entry]
                | None => []
                end →
            ∃ d' delta',
              Some d = Some d' ∧
              to_string_opt (get d' "delta") = Some delta' ∧
              (u = SetJsonAccumulator k (currentJson snap k +:+ delta') ∨
               ∃ entry, attempt_partial (currentJson snap k +:+ delta') = Some entry ∧
                        u = SetNotes k entry)) as Hmain.
    { intros [->|Hu]%elem_of_cons; [by exists d, delta; eauto|].
      destruct (attempt_partial _) as [entry|] eqn:Hp; [|by apply elem_of_nil in Hu].
      apply list_elem_of_singleton in Hu as ->. exists d, delta. eauto 10. }
    destruct d; try done. by intros ?%elem_of_nil.
  - destruct d; by intros ?%elem_of_nil.
Qed.

Lemma handle_done_inv k eventData u :
  u ∈ handle_done k eventData →
  ∃ d text completedData,
    get eventData "data" = Some d ∧
    to_string_opt (get d "text") = Some text ∧
    parse text = Some completedData ∧
    u = SetNotes k (done_entry completedData).
Proof.
  unfold handle_done.
  destruct (get eventData "data") as [d|] eqn:Hd; [|by intros ?%elem_of_nil].
  destruct (to_string_opt (get d "text")) as [text|] eqn:Ht.
  - destruct (parse text) as [v|] eqn:Hv.
    + destruct d; try by intros ?%elem_of_nil.
      all: intros ->%list_elem_of_singleton; eauto 10.
    + destruct d; by intros ?%elem_of_nil.
  - destruct d; by intros ?%elem_of_nil.
Qed.

Lemma handle_line_issued `{Engine} snap k frames line u :
  line ∈ frames →
  u ∈ (handle_line snap k line).1 → issued snap k frames u.
Proof.
  intros Hin. unfold handle_line.
  destruct (Str.startsWith line "data: ") eqn:Hpre; [|by intros ?%elem_of_nil].
  destruct (parse (Str.substring_from 6 line)) as [eventData|] eqn:Hparse;
    [|by intros ?%elem_of_nil].
  assert (u ∈ (if event_is eventData DELTA then handle_delta snap k eventData else [])
              ++ (if event_is eventData DONE then handle_done k eventData else [])
          → issued snap k frames u) as Hmain.
  { intros [Hu|Hu]%elem_of_app.
    - destruct (event_is eventData DELTA) eqn:Hev; [|by apply elem_of_nil in Hu].
      apply handle_delta_inv in Hu as (d & delta & Hd & Ht & Hu).
      assert (delta_frame line delta) as Hframe.
      { split; [done|]. by exists eventData, d. }
      destruct Hu as [->|(entry & Hp & ->)].
      + by apply (issued_delta snap k frames line delta).
      + by apply (issued_partial snap k frames line delta entry).
    - destruct (event_is eventData DONE) eqn:Hev; [|by apply elem_of_nil in Hu].
      apply handle_done_inv in Hu as (d & text & v & Hd & Ht & Hv & ->).
      apply (issued_done snap k frames line text v Hin); [|done].
      split; [done|]. by exists eventData, d. }
  destruct eventData; simpl; done.
Qed.

Lemma handle_lines_issued `{Engine} snap k frames lines u :
  (∀ line, line ∈ lines → line ∈ frames) →
  u ∈ (handle_lines snap k lines).1 → issued snap k frames u.
Proof.
  induction lines as [|line rest IH]; simpl; intros Hsub.
  - by intros ?%elem_of_nil.
  - destruct (handle_line snap k line) as [us [t|]] eqn:Hl.
    + simpl. intros Hu. eapply (handle_line_issued snap k frames line).
      * apply Hsub. left.
      * by rewrite Hl.
    + destruct (handle_lines snap k rest) as [us' r]. simpl in *.
      intros [Hu|Hu]%elem_of_app.
      * eapply (handle_line_issued snap k frames line).
        -- apply Hsub. left.
        -- by rewrite Hl.
      * apply IH; [|done]. intros l Hl'. apply Hsub. by right.
Qed.

Lemma read_loop_issued `{Engine} snap k frames partialData chunks ending u :
  (∀ line, line ∈ frames_of partialData chunks → line ∈ frames) →
  u ∈ (read_loop snap k partialData chunks ending).1 → issued snap k frames u.
Proof.
  revert partialData.
  induction chunks as [|chunk rest IH]; simpl; intros partialData Hsub.
  - destruct ending; by intros ?%elem_of_nil.
  - set (lines := removelast _) in *. set (partialData' := List.last _ _) in *.
    assert (∀ u, u ∈ (handle_lines snap k lines).1 → issued snap k frames u) as Hlines.
    { intros u'. apply handle_lines_issued. intros l Hl. apply Hsub.
      apply elem_of_app. by left. }
    destruct (handle_lines snap k lines) as [us [t|]]; simpl in *.
    + apply Hlines.
    + destruct (read_loop snap k partialData' rest ending) as [us' r] eqn:Hr.
      simpl. intros [Hu|Hu]%elem_of_app; [by apply Hlines|].
      apply (IH partialData'); [|by rewrite Hr].
      intros l Hl. apply Hsub. apply elem_of_app. by right.
Qed.

Lemma attempt_issued `{Engine} snap k net u :
  u ∈ (attempt snap k net).1 → issued snap k (frames_delivered net) u.
Proof.
  destruct net as [t|status [b|]]; simpl; try by intros ?%elem_of_nil.
  - destruct (negb (response_ok status)); [by intros ?%elem_of_nil|].
    by apply read_loop_issued.
  - destruct (negb (response_ok status)); by intros ?%elem_of_nil.
Qed.

Lemma generateNotes_issued `{Engine} snap k description diff net u :
  u ∈ generateNotes snap k description diff net →
  issued snap k (frames_delivered net) u.
Proof.
  unfold generateNotes. destruct (generated _); [by intros ?%elem_of_nil|].
  intros [->|[->|Hu]%elem_of_cons]%elem_of_cons; [constructor..|].
  pose proof (attempt_issued snap k net) as Hatt.
  destruct (attempt snap k net) as [us [t|]]; simpl in *.
  - apply elem_of_app in Hu as [Hu|Hu]; [by apply Hatt|].
    apply list_elem_of_singleton in Hu as ->. constructor.
  - by apply Hatt.
Qed.

(** *** The accumulator and the delta frames (C1) *)

(** Whatever the stream, each text an attempt stores in the accumulator
    is the empty text of the reset, or the text the render saw followed by
    the fragment of one delta frame: fragments are never chained. And each
    entry shown while loading is the reset one or the speculative parse of
    such a text. *)
Lemma accumulator_holds_one_fragment `{Engine} snap k description diff net text :
  SetJsonAccumulator k text ∈ generateNotes snap k description diff net →
  text = "" ∨
  ∃ line delta,
    line ∈ frames_delivered net ∧ delta_frame line delta ∧
    text = currentJson snap k +:+ delta.
Proof.
  intros Hu%generateNotes_issued.
  inversion Hu; subst; [by left|]. right. by eexists _, _.
Qed.

Lemma partial_entry_reads_one_fragment `{Engine} snap k description diff net e :
  SetNotes k e ∈ generateNotes snap k description diff net →
  loading e = true →
  e = loading_entry ∨
  ∃ line delta,
    line ∈ frames_delivered net ∧ delta_frame line delta ∧
    attempt_partial (currentJson snap k +:+ delta) = Some e.
Proof.
  intros Hu%generateNotes_issued Hload.
  inversion Hu; subst; simpl in *; try done; [by left|].
  right. by eexists _, _.
Qed.

(** C1 (defect in the code). The claim: after the first n delta events the
    accumulator of the diff is the concatenation of the first n fragments,
    and the partial notes shown are those of that concatenation. The code,
    from a fresh state, on a stream of two delta frames whose fragments
    [Sample.delta1] and [Sample.delta2] join into the complete notes: the
    accumulator ends as the second fragment alone and the entry still shows
    the empty notes, although the two fragments joined pass the speculative
    parse and give the notes a and b. *)
Theorem C1_deltas_are_not_accumulated `{Engine} :
  let st := run (generateNotes initial "42" "Fix caching bug" "patch"
                   Sample.two_deltas) initial in
  frames_delivered Sample.two_deltas = [Sample.delta_line1; Sample.delta_line2] ∧
  delta_frame Sample.delta_line1 Sample.delta1 ∧
  delta_frame Sample.delta_line2 Sample.delta2 ∧
  jsonAccumulator st !! "42" = Some Sample.delta2 ∧
  Sample.delta2 ≠ Sample.delta1 +:+ Sample.delta2 ∧
  notes st !! "42" = Some loading_entry ∧
  attempt_partial (Sample.delta1 +:+ Sample.delta2)
    = Some {| loading := true; error := None; data := Sample.notes_ab |}.
Proof.
  split; [reflexivity|].
  split; [split; [reflexivity|]; eexists _, _; repeat split; vm_compute; reflexivity|].
  split; [split; [reflexivity|]; eexists _, _; repeat split; vm_compute; reflexivity|].
  split; [reflexivity|].
  split; [by vm_compute|].
  split; reflexivity.
Qed.

(** *** Only a done event finishes an entry (C2) *)

Lemma done_update_origin snap k frames k' e :
  issued snap k frames (SetNotes k' e) → is_done e →
  k' = k ∧ from_done_frame frames e.
Proof.
  intros Hu (Hload & Herr & Hdata).
  inversion Hu; subst; simpl in *; try discriminate.
  - match goal with H : attempt_partial _ = Some _ |- _ =>
      apply attempt_partial_shape in H as [p ->] end.
    discriminate.
  - split; [done|]. by eexists _, _.
Qed.

(** The entry of the diff after some setter calls of an attempt is the
    one from before, or the one a [setNotes] among them wrote. *)
Lemma run_issued_entry snap k frames us st :
  (∀ u, u ∈ us → issued snap k frames u) →
  notes (run us st) !! k = notes st !! k ∨
  ∃ e, SetNotes k e ∈ us ∧ notes (run us st) !! k = Some e.
Proof.
  revert st. induction us as [|u us IH]; intros st Hus; [by left|].
  rewrite run_cons.
  destruct (IH (apply st u)) as [Hsame|(e & He & Hk)].
  { intros u' Hu'. apply Hus. by right. }
  - rewrite Hsame.
    destruct (Hus u); [left|..]; simpl;
      [by left|right; eexists; split; [left|apply lookup_insert_eq]|by left
      |right; eexists; split; [left|apply lookup_insert_eq]..].
  - right. exists e. split; [by right|done].
Qed.

(** C2. Take any attempt and any stream. Each entry the attempt writes
    that is done (not loading, no error, data present) is the entry of the
    diff of the attempt, and its data is the parse of the text of a done
    frame the stream delivered: an entry written from repaired delta text
    is never done. So in every state along the attempt in which the entry
    of the diff is done, the entry is either the one from before the
    attempt or one parsed from the text of a done frame. *)
Theorem C2_done_only_from_done_event `{Engine} snap diffId description diff net :
  let us := generateNotes snap diffId description diff net in
  (∀ k e, SetNotes k e ∈ us → is_done e →
     k = diffId ∧ from_done_frame (frames_delivered net) e) ∧
  (∀ prefix rest st e,
     us = prefix ++ rest →
     notes (run prefix st) !! diffId = Some e →
     is_done e →
     notes st !! diffId = Some e ∨ from_done_frame (frames_delivered net) e).
Proof.
  intros us. split.
  - intros k e Hu Hdone.
    by apply (done_update_origin snap diffId (frames_delivered net) k e);
      [apply (generateNotes_issued snap diffId description diff)|].
  - intros prefix rest st e Hus Hk Hdone.
    destruct (run_issued_entry snap diffId (frames_delivered net) prefix st)
      as [Hsame|(e' & He' & Hk')].
    { intros u Hu. apply (generateNotes_issued snap diffId description diff).
      fold us. rewrite Hus. apply elem_of_app. by left. }
    + left. by rewrite <-Hsame.
    + right. rewrite Hk in Hk'. injection Hk' as <-.
      eapply done_update_origin; [|done].
      apply (generateNotes_issued snap diffId description diff).
      fold us. rewrite Hus. apply elem_of_app. left. exact He'.
Qed.

Lemma C2_witness :
  let engine := Sample.engine in
  let us := generateNotes initial "42" "Fix caching bug" "patch" Sample.full_stream in
  SetNotes "42" (done_entry Sample.notes_ab) ∈ us ∧
  is_done (done_entry Sample.notes_ab) ∧
  notes (run us initial) !! "42" = Some (done_entry Sample.notes_ab) ∧
  from_done_frame (frames_delivered Sample.full_stream) (done_entry Sample.notes_ab).
Proof.
  intros engine us.
  assert (SetNotes "42" (done_entry Sample.notes_ab) ∈ us) as Hin.
  { vm_compute. do 4 apply list_elem_of_further. apply list_elem_of_here. }
  assert (is_done (done_entry Sample.notes_ab)) as Hdone.
  { repeat split. discriminate. }
  split; [exact Hin|]. split; [exact Hdone|]. split; [by vm_compute|].
  exact (proj2 (proj1 (C2_done_only_from_done_event initial "42" "Fix caching bug"
                         "patch" Sample.full_stream)
                  "42" (done_entry Sample.notes_ab) Hin Hdone)).
Defined.

(** *** The request check of the route (C3) *)

(** With a diff in place, a missing id or description is answered 400. *)
Lemma POST_missing_id_or_description id description s upstream :
  Route.is_nullish id || Route.is_nullish description = true →
  Route.POST (Route.Fields id description (Route.Text s)) upstream
  = Route.JsonResponse 400 "Missing required fields" None.
Proof.
  intros H. unfold Route.POST. simpl.
  destruct (Route.is_nullish id), (Route.is_nullish description); done.
Qed.

(** C3 (defect in the code). The claim: a body in which any of id,
    description or diff is missing is answered 400. The code on a body
    without diff, or with diff null: the preview of the diff computed for
    the log line throws before the check is reached, and the answer is
    500 with the error of the catch block. *)
Theorem C3_missing_diff_answers_500 id description upstream :
  Route.POST (Route.Fields id description Route.Absent) upstream
  = Route.JsonResponse 500 "Failed to generate notes"
      (Some "Cannot read properties of undefined (reading 'length')") ∧
  Route.response_code
    (Route.POST (Route.Fields id description Route.Null) upstream) = 500%N ∧
  Route.response_code
    (Route.POST (Route.Fields (Route.Text "42") (Route.Text "Fix caching bug")
                   Route.Absent) upstream) ≠ 400%N.
Proof. repeat split. discriminate. Qed.

(** *** A done event whose text does not parse (C5) *)

Lemma done_is_not_delta eventData :
  event_is eventData DONE = true → event_is eventData DELTA = false.
Proof.
  unfold event_is. destruct (get eventData "event") as [[]|]; try done.
  intros ->%String.eqb_eq. reflexivity.
Qed.

(** C5. A done frame whose text fails to parse makes no state setter call
    and throws nothing out of the reading loop: the entry of the diff, like
    the rest of the state, is as it was before the frame. *)
Theorem C5_unparsable_done_leaves_entry `{Engine} snap diffId line text st :
  done_frame line text →
  parse text = None →
  handle_line snap diffId line = ([], None) ∧
  notes (run (handle_line snap diffId line).1 st) !! diffId = notes st !! diffId.
Proof.
  intros (Hpre & eventData & d & Hparse & Hev & Hd & Ht) Hfail.
  assert (handle_line snap diffId line = ([], None)) as Hline.
  { unfold handle_line. rewrite Hpre, Hparse.
    rewrite (done_is_not_delta _ Hev), Hev.
    unfold handle_done. rewrite Hd, Ht, Hfail.
    destruct eventData; try done. destruct d; done. }
  split; [done|]. by rewrite Hline.
Qed.

Lemma C5_witness :
  let engine := Sample.engine in
  done_frame Sample.truncated_done_line Sample.truncated_text ∧
  parse Sample.truncated_text = None ∧
  handle_line initial "42" Sample.truncated_done_line = ([], None) ∧
  notes (run (handle_line initial "42" Sample.truncated_done_line).1
           (Sample.with_entry "42" loading_entry)) !! "42"
  = notes (Sample.with_entry "42" loading_entry) !! "42".
Proof.
  intros engine.
  assert (done_frame Sample.truncated_done_line Sample.truncated_text) as Hframe.
  { split; [reflexivity|].
    eexists _, _. repeat split; vm_compute; reflexivity. }
  assert (parse Sample.truncated_text = None) as Hfail by reflexivity.
  split; [exact Hframe|]. split; [exact Hfail|].
  exact (C5_unparsable_done_leaves_entry initial "42" Sample.truncated_done_line
           Sample.truncated_text (Sample.with_entry "42" loading_entry)
           Hframe Hfail).
Defined.

(** *** Invoking generation again (C4) *)

Lemma generated_iff_done entry :
  generated entry = true ↔ status_of entry = Done.
Proof.
  destruct entry as [e|]; simpl; [|done].
  destruct (loading e), (has_error e), (truthy (data e)); simpl; split; done.
Qed.

Lemma not_generated_iff entry :
  generated entry = false ↔ status_of entry ≠ Done.
Proof.
  rewrite <-generated_iff_done. destruct (generated entry); split; done.
Qed.

Lemma generateNotes_shape `{Engine} snap k description diff net :
  (status_of (notes snap !! k) = Done →
   generateNotes snap k description diff net = []) ∧
  (status_of (notes snap !! k) ≠ Done →
   ∃ rest,
     generateNotes snap k description diff net
     = SetJsonAccumulator k "" :: SetNotes k loading_entry :: rest).
Proof.
  split.
  - intros Hdone%generated_iff_done. unfold generateNotes. by rewrite Hdone.
  - intros Hnot%not_generated_iff. unfold generateNotes. rewrite Hnot. by eexists.
Qed.

(** C4, against the claim as stated: the entry of diff 42 is done, and
    invoking generation for 42 again makes no state setter call at all; the
    entry stays done and is never reset to loading. *)
Lemma C4_counterexample :
  let engine := Sample.engine in
  let st := Sample.with_entry "42" (done_entry Sample.notes_ab) in
  let us := generateNotes st "42" "Fix caching bug" "patch" Sample.full_stream in
  status_of (notes st !! "42") = Done ∧
  us = [] ∧
  status_of (notes (run us st) !! "42") ≠ Loading.
Proof. intros engine. repeat split. discriminate. Qed.

(** C4, amended. When the entry of the diff, as the invoking render sees
    it, is done, the invocation makes no state setter call and the store is
    unchanged. Otherwise (in particular when the entry is in error) the
    first two calls of the invocation empty the accumulator of the diff and
    put its entry to loading with no error and the empty notes as data, and
    every other call of the attempt comes after them. *)
Theorem C4_reinvocation `{Engine} snap diffId description diff net st :
  (status_of (notes snap !! diffId) = Done →
   generateNotes snap diffId description diff net = [] ∧
   run (generateNotes snap diffId description diff net) st = st) ∧
  (status_of (notes snap !! diffId) ≠ Done →
   ∃ rest,
     generateNotes snap diffId description diff net
     = SetJsonAccumulator diffId "" :: SetNotes diffId loading_entry :: rest ∧
     let st' := run [SetJsonAccumulator diffId ""; SetNotes diffId loading_entry] st in
     notes st' !! diffId = Some loading_entry ∧
     jsonAccumulator st' !! diffId = Some "" ∧
     status_of (notes st' !! diffId) = Loading).
Proof.
  split.
  - intros Hdone%generated_iff_done. unfold generateNotes. by rewrite Hdone.
  - intros Hnot%not_generated_iff. unfold generateNotes. rewrite Hnot.
    eexists. split; [reflexivity|]. simpl.
    rewrite !lookup_insert_eq. done.
Qed.

Lemma C4_witness :
  let engine := Sample.engine in
  let failed := Sample.with_entry "42" (error_entry (ErrorObject "No response body")) in
  let done := Sample.with_entry "42" (done_entry Sample.notes_ab) in
  (status_of (notes done !! "42") = Done ∧
   run (generateNotes done "42" "Fix caching bug" "patch" Sample.full_stream) done = done) ∧
  (status_of (notes failed !! "42") ≠ Done ∧
   ∃ rest,
     generateNotes failed "42" "Fix caching bug" "patch" Sample.full_stream
     = SetJsonAccumulator "42" "" :: SetNotes "42" loading_entry :: rest ∧
     let st' := run [SetJsonAccumulator "42" ""; SetNotes "42" loading_entry] failed in
     notes st' !! "42" = Some loading_entry ∧
     jsonAccumulator st' !! "42" = Some "" ∧
     status_of (notes st' !! "42") = Loading).
Proof.
  intros engine failed done.
  assert (status_of (notes done !! "42") = Done) as Hdone by reflexivity.
  assert (status_of (notes failed !! "42") ≠ Done) as Hfailed by (vm_compute; discriminate).
  split.
  - split; [exact Hdone|].
    exact (proj2 (proj1 (C4_reinvocation done "42" "Fix caching bug" "patch"
                           Sample.full_stream done) Hdone)).
  - split; [exact Hfailed|].
    exact (proj2 (C4_reinvocation failed "42" "Fix caching bug" "patch"
                    Sample.full_stream failed) Hfailed).
Defined.

(** *** Failures of the transport (C6) *)

(** Whatever the attempt throws ends in the error entry. *)
Lemma generateNotes_failure `{Engine} snap k description diff net t st :
  generated (notes snap !! k) = false →
  (attempt snap k net).2 = Some t →
  notes (run (generateNotes snap k description diff net) st) !! k
  = Some (error_entry t).
Proof.
  intros Hgen Hatt. unfold generateNotes. rewrite Hgen.
  destruct (attempt snap k net) as [us r]. simpl in Hatt. subst r.
  rewrite !run_cons, run_snoc. simpl. apply lookup_insert_eq.
Qed.

Lemma transport_failure_attempt `{Engine} snap k net t :
  transport_failure net = Some t → attempt snap k net = ([], Some t).
Proof.
  destruct net as [t'|status [b|]]; simpl.
  - by intros [= ->].
  - destruct (negb (response_ok status)); [by intros [= ->]|done].
  - destruct (negb (response_ok status)); by intros [= ->].
Qed.

(** A stream that breaks off with a read error also ends in an error
    entry: the one of the read error, or of a malformed frame before it. *)
Lemma read_loop_failure `{Engine} snap k partialData chunks t :
  ∃ t', (read_loop snap k partialData chunks (ReadFails t)).2 = Some t'.
Proof.
  revert partialData. induction chunks as [|chunk rest IH]; intros partialData.
  - by exists t.
  - simpl. set (lines := removelast _). set (partialData' := List.last _ _).
    destruct (handle_lines snap k lines) as [us [t'|]]; [by exists t'|].
    destruct (IH partialData') as [t' Ht'].
    destruct (read_loop snap k partialData' rest (ReadFails t)) as [us' r].
    simpl in *. by exists t'.
Qed.

Lemma broken_stream_sets_error `{Engine} snap k description diff status chunks t st :
  generated (notes snap !! k) = false →
  response_ok status = true →
  ∃ t',
    notes (run (generateNotes snap k description diff
                  (Responds status (Some {| chunks := chunks;
                                            ending := ReadFails t |}))) st) !! k
    = Some (error_entry t').
Proof.
  intros Hgen Hok.
  destruct (read_loop_failure snap k "" chunks t) as [t' Ht'].
  exists t'. apply generateNotes_failure; [done|].
  simpl. by rewrite Hok.
Qed.

(** C6. An attempt that really starts (the render does not already see
    generated notes for the diff) and whose request is rejected, answered
    with a status that is not OK, or answered without a body, leaves the
    entry of the diff not loading, with the message of the failure as its
    error and [null] as its data. *)
Theorem C6_transport_failure_sets_error `{Engine} snap diffId description diff net t st :
  generated (notes snap !! diffId) = false →
  transport_failure net = Some t →
  notes (run (generateNotes snap diffId description diff net) st) !! diffId
  = Some {| loading := false; error := Some (failure_message t); data := JNull |}.
Proof.
  intros Hgen Hfail. apply generateNotes_failure; [done|].
  by rewrite (transport_failure_attempt snap diffId net t Hfail).
Qed.

Lemma C6_witness :
  let engine := Sample.engine in
  generated (notes initial !! "42") = false ∧
  transport_failure (Responds 503 None)
  = Some (ErrorObject "HTTP error! status: 503") ∧
  notes (run (generateNotes initial "42" "Fix caching bug" "patch"
                (Responds 503 None)) initial) !! "42"
  = Some {| loading := false;
            error := Some "HTTP error! status: 503";
            data := JNull |}.
Proof.
  intros engine.
  split; [reflexivity|]. split; [reflexivity|].
  exact (C6_transport_failure_sets_error initial "42" "Fix caching bug" "patch"
           (Responds 503 None) (ErrorObject "HTTP error! status: 503") initial
           eq_refl eq_refl).
Defined.

(** *** The cache (C8, C9) *)



(** Only an infinite number is truthy and stored as a falsy value. *)
Lemma truthy_stored v :
  truthy (stored v) = truthy v && negb (infinite v).
Proof. destruct v as [| | [] | | |]; simpl; by rewrite ?andb_true_r. Qed.

Lemma to_cache_Some now e ce :
  to_cache now e = Some ce ↔
  status_of (Some e) = Done ∧
  ce = {| timestamp := now; cached_data := stored (data e) |}.
Proof.
  unfold to_cache. simpl.
  destruct (loading e), (has_error e), (truthy (data e)); simpl;
    split; try done; try (by intros [? _]).
  - by intros [= <-].
  - by intros [_ ->].
Qed.

Lemma saved_entry ns now storage k :
  stored_entry (saveNotesToCache ns now true storage) k
  = ns !! k ≫= to_cache now.
Proof. simpl. apply lookup_omap. Qed.

Lemma loaded_entry cache now st k :
  notes (run (loadNotesFromCache (Stored cache) now) st) !! k
  = cache !! k ≫= from_cache now.
Proof. simpl. apply lookup_omap. Qed.


(** What a load finds of an entry that was done when the notes were
    saved. *)
Lemma reloaded_entry (ns : gmap string NoteEntry) k e saved loaded storage st :
  ns !! k = Some e →
  status_of (Some e) = Done →
  (loaded - saved < CACHE_EXPIRATION)%Z →
  notes (run (loadNotesFromCache (saveNotesToCache ns saved true storage) loaded)
           st) !! k
  = Some {| loading := false; error := None; data := stored (data e) |}.
Proof.
  intros Hk Hdone Hage.
  change (saveNotesToCache ns saved true storage)
    with (Stored (omap (to_cache saved) ns)).
  rewrite loaded_entry, lookup_omap, Hk. simpl.
  rewrite (proj2 (to_cache_Some saved e _) (conj Hdone eq_refl)). simpl.
  unfold from_cache. simpl.
  by destruct (Z.ltb_spec (loaded - saved) CACHE_EXPIRATION); [|lia].
Qed.




(** C9, against the claim as stated: diff 42 is in the stored cache with
    timestamp 1000; a save pass at time 5000 over notes in which 42 is done
    stores it with timestamp 5000. *)
Lemma C9_counterexample :
  let ns : gmap string NoteEntry := {[ "42" := done_entry Sample.notes_ab ]} in
  let before :=
    Stored {[ "42" := {| timestamp := 1000; cached_data := Sample.notes_ab |} ]} in
  timestamp <$> stored_entry before "42" = Some 1000%Z ∧
  timestamp <$> stored_entry (saveNotesToCache ns 5000 true before) "42"
  = Some 5000%Z ∧
  5000%Z ≠ 1000%Z.
Proof. repeat split. discriminate. Qed.

(** C9, amended. After a save pass that succeeds at time [now], a diff has
    a stored entry exactly when its note entry is done with no error, and
    that stored entry carries the data of the note entry and the timestamp
    [now], whatever was stored before the pass. *)
Theorem C9_save_pass (ns : gmap string NoteEntry) now storage k ce :
  stored_entry (saveNotesToCache ns now true storage) k = Some ce ↔
  ∃ e, ns !! k = Some e ∧
       status_of (Some e) = Done ∧
       ce = {| timestamp := now; cached_data := stored (data e) |}.
Proof.
  rewrite saved_entry. destruct (ns !! k) as [e|]; simpl.
  - rewrite to_cache_Some. split.
    + intros [? ?]. by exists e.
    + by intros (e' & [= <-] & ? & ?).
  - split; [done|]. by intros (e & ? & _).
Qed.

(** *** Loading entries (C10) *)

Lemma issued_update_ok snap k frames u : issued snap k frames u → update_ok u.
Proof.
  intros [| |line delta|line delta entry _ _ Hp| |]; simpl; try done;
    unfold entry_ok; simpl; try done.
  - intros _. split; [done|]. split; [done|]. by eexists _, _.
  - apply attempt_partial_shape in Hp as [p ->]. simpl.
    intros _. split; [done|]. split; [done|]. by eexists _, _.
Qed.

Lemma loaded_notes_ok storage now u :
  u ∈ loadNotesFromCache storage now → update_ok u.
Proof.
  destruct storage as [| |cache]; simpl; try by intros ?%elem_of_nil.
  intros ->%list_elem_of_singleton. simpl. intros k e.
  rewrite lookup_omap. destruct (cache !! k) as [ce|]; simpl; [|done].
  unfold from_cache. destruct (_ <? _)%Z; [|done].
  intros [= <-]. unfold entry_ok. simpl. done.
Qed.

Lemma apply_notes_ok st u :
  notes_ok (notes st) → update_ok u → notes_ok (notes (apply st u)).
Proof.
  intros Hst Hu. destruct u as [k text|k e|loaded|b]; simpl; try done.
  intros k' e'. destruct (decide (k = k')) as [->|Hne].
  - rewrite lookup_insert_eq. by intros [= <-].
  - rewrite lookup_insert_ne by done. apply Hst.
Qed.

Lemma run_notes_ok us st :
  notes_ok (notes st) → (∀ u, u ∈ us → update_ok u) →
  notes_ok (notes (run us st)).
Proof.
  revert st. induction us as [|u us IH]; intros st Hst Hus; [done|].
  rewrite run_cons. apply IH.
  - apply apply_notes_ok; [done|]. apply Hus. left.
  - intros u' Hu'. apply Hus. by right.
Qed.

Lemma batch_item_update `{Engine} snap job u :
  Upd u ∈ batch_item snap job →
  issued snap (id job.1) (frames_delivered job.2) u.
Proof.
  destruct job as [d net]. unfold batch_item. simpl.
  destruct (generated _); [by intros ?%elem_of_nil|].
  destruct (in_flight _); [by intros ?%elem_of_nil|].
  intros [?|[Hu|Hu]%elem_of_app]%elem_of_cons; [done| |].
  - apply list_elem_of_In, in_map_iff in Hu as (u' & [= ->] & Hu).
    eapply generateNotes_issued. by apply list_elem_of_In.
  - apply elem_of_cons in Hu as [?|Hu]; [done|].
    by apply list_elem_of_singleton in Hu.
Qed.

Lemma batch_update_ok `{Engine} snap jobs u :
  u ∈ updates_of (generateAllNotes snap jobs) → update_ok u.
Proof.
  unfold updates_of. intros (ev & Hev & Hu)%list_elem_of_omap.
  destruct ev as [|u'| |]; try done. injection Hu as ->.
  unfold generateAllNotes in Hev.
  destruct (_ || _); [by apply elem_of_nil in Hev|].
  apply elem_of_cons in Hev as [[= ->]|Hev]; [done|].
  apply elem_of_app in Hev as [Hev|Hev].
  - apply list_elem_of_In, in_concat in Hev as (seg & Hseg & Hev).
    apply in_map_iff in Hseg as (job & <- & _).
    eapply issued_update_ok, batch_item_update. by apply list_elem_of_In.
  - by apply list_elem_of_singleton in Hev as [= ->].
Qed.

Lemma act_notes_ok `{Engine} st a :
  notes_ok (notes st) → notes_ok (notes (act st a)).
Proof.
  intros Hst. destruct a as [storage now|snap k description diff net n|snap jobs n];
    simpl.
  - apply run_notes_ok; [done|]. apply loaded_notes_ok.
  - destruct (_ !! n) as [u|] eqn:Hn; [|done].
    apply apply_notes_ok; [done|].
    eapply issued_update_ok, generateNotes_issued, list_elem_of_lookup_2, Hn.
  - destruct (_ !! n) as [u|] eqn:Hn; [|done].
    apply apply_notes_ok; [done|].
    eapply batch_update_ok, list_elem_of_lookup_2, Hn.
Qed.

Lemma exec_notes_ok `{Engine} actions : notes_ok (notes (exec actions)).
Proof.
  unfold exec.
  assert (notes_ok (notes initial)) as Hinit.
  { intros k e. simpl. by rewrite lookup_empty. }
  revert Hinit. generalize initial.
  induction actions as [|a actions IH]; intros st Hst; [done|].
  simpl. apply IH. by apply act_notes_ok.
Qed.

(** C10. In every state reached from the initial one by cache loads and by
    state setter calls of [generateNotes] and [generateAllNotes], in any
    interleaving, an entry that is loading has no error and has data that
    is not [null]: an object holding the developer note and the marketing
    note. *)
Theorem C10_loading_entry_shape `{Engine} actions k e :
  notes (exec actions) !! k = Some e →
  loading e = true →
  error e = None ∧
  data e ≠ JNull ∧
  ∃ dev mkt, data e = JObj [("developerNote", dev); ("marketingNote", mkt)].
Proof. intros Hk. by apply (exec_notes_ok actions k e). Qed.

Lemma C10_witness :
  let engine := Sample.engine in
  let actions :=
    [Generate initial "42" "Fix caching bug" "patch" Sample.full_stream 0;
     Generate initial "42" "Fix caching bug" "patch" Sample.full_stream 1] in
  notes (exec actions) !! "42" = Some loading_entry ∧
  loading loading_entry = true ∧
  error loading_entry = None ∧
  data loading_entry ≠ JNull ∧
  ∃ dev mkt, data loading_entry = JObj [("developerNote", dev); ("marketingNote", mkt)].
Proof.
  intros engine actions.
  assert (notes (exec actions) !! "42" = Some loading_entry) as Hk
    by (vm_compute; reflexivity).
  split; [exact Hk|]. split; [reflexivity|].
  exact (C10_loading_entry_shape actions "42" loading_entry Hk eq_refl).
Defined.

(** *** The batch (C7) *)

Lemma in_flight_iff_loading entry :
  in_flight entry = true ↔ status_of entry = Loading.
Proof.
  destruct entry as [e|]; simpl; [|done].
  destruct (loading e), (has_error e), (truthy (data e)); split; done.
Qed.

(** A turn of the loop either does nothing, for an item the render sees
    as done or as loading, or is one whole invocation followed by the
    pause. *)
Lemma batch_item_cases `{Engine} snap job :
  let k := id job.1 in
  let us := generateNotes snap k (description job.1) (diff job.1) job.2 in
  ((status_of (notes snap !! k) = Done ∨ status_of (notes snap !! k) = Loading) ∧
   due snap job = false ∧
   batch_item snap job = []) ∨
  (status_of (notes snap !! k) ≠ Done ∧
   status_of (notes snap !! k) ≠ Loading ∧
   due snap job = true ∧
   batch_item snap job = Invoke k :: map Upd us ++ [Return k; Delay 1000]).
Proof.
  destruct job as [d net]. simpl. unfold batch_item, due. simpl.
  destruct (generated _) eqn:Hgen.
  { left. split; [|done]. left. by apply generated_iff_done. }
  destruct (in_flight _) eqn:Hfl.
  { left. split; [|done]. right. by apply in_flight_iff_loading. }
  right. split; [by apply not_generated_iff|]. split; [|done].
  rewrite <-in_flight_iff_loading. by rewrite Hfl.
Qed.

Lemma updates_of_app evs evs' :
  updates_of (evs ++ evs') = updates_of evs ++ updates_of evs'.
Proof. apply omap_app. Qed.

Lemma updates_of_map_Upd us : updates_of (map Upd us) = us.
Proof. induction us as [|u us IH]; [done|]. simpl. by rewrite <-IH at 2. Qed.

Lemma invocations_of_app evs evs' :
  invocations_of (evs ++ evs') = invocations_of evs ++ invocations_of evs'.
Proof. apply omap_app. Qed.

Lemma invocations_of_map_Upd us : invocations_of (map Upd us) = [].
Proof. by induction us. Qed.

(** An attempt for one diff leaves the entries of the other diffs alone. *)
Lemma run_issued_frame snap k' frames us st k :
  (∀ u, u ∈ us → issued snap k' frames u) →
  k ≠ k' →
  notes (run us st) !! k = notes st !! k.
Proof.
  revert st. induction us as [|u us IH]; intros st Hus Hne; [done|].
  rewrite run_cons, IH; [|intros u' Hu'; apply Hus; by right|done].
  destruct (Hus u); [left|..]; simpl; try done.
  all: by rewrite lookup_insert_ne.
Qed.

Lemma batch_item_frame `{Engine} snap job st k :
  k ≠ id job.1 →
  notes (run (updates_of (batch_item snap job)) st) !! k = notes st !! k.
Proof.
  intros Hne. eapply run_issued_frame; [|done].
  intros u (ev & Hev & Hu)%list_elem_of_omap.
  destruct ev; try done. injection Hu as ->.
  by apply (batch_item_update snap job).
Qed.

Lemma batch_items_frame `{Engine} snap prefix st k :
  (∀ job, job ∈ prefix → k ≠ id job.1) →
  notes (run (updates_of (concat (map (batch_item snap) prefix))) st) !! k
  = notes st !! k.
Proof.
  revert st. induction prefix as [|job prefix IH]; intros st Hne; [done|].
  simpl. rewrite updates_of_app, run_app, IH.
  - apply batch_item_frame, Hne. left.
  - intros job' Hjob'. apply Hne. by right.
Qed.

Lemma earlier_ids_differ {A} (f : A → string) jobs k job :
  NoDup (map f jobs) →
  jobs !! k = Some job →
  ∀ job', job' ∈ take k jobs → f job ≠ f job'.
Proof.
  revert k. induction jobs as [|j jobs IH]; intros k Hnd Hk job' Hin; [done|].
  simpl in Hnd. inversion Hnd as [|? ? Hj Hnd']; subst.
  destruct k as [|k]; simpl in *; [by apply elem_of_nil in Hin|].
  apply elem_of_cons in Hin as [->|Hin]; [|by eapply IH].
  intros Heq. apply Hj. rewrite <-Heq.
  apply list_elem_of_In, in_map, list_elem_of_In. by eapply list_elem_of_lookup_2.
Qed.

(** When the loop reaches an item, its entry in the store is the one the
    render saw. *)
Lemma state_before_entry `{Engine} snap st jobs k job :
  NoDup (map (λ job, id job.1) jobs) →
  notes st = notes snap →
  jobs !! k = Some job →
  notes (state_before snap jobs k st) !! id job.1 = notes snap !! id job.1.
Proof.
  intros Hnd Hst Hk. unfold state_before.
  change (updates_of (Upd (SetProcessingAll true) :: ?evs))
    with (SetProcessingAll true :: updates_of evs).
  rewrite run_cons, batch_items_frame; [by rewrite <-Hst|].
  intros job' Hjob'.
  by apply (earlier_ids_differ (λ job, id job.1) jobs k job Hnd Hk).
Qed.

Lemma max_in_flight_updates n us rest :
  max_in_flight n (map Upd us ++ rest) = max_in_flight n rest.
Proof. by induction us. Qed.

Lemma max_in_flight_item `{Engine} snap job rest :
  (max_in_flight 0 rest ≤ 1)%nat →
  (max_in_flight 0 (batch_item snap job ++ rest) ≤ 1)%nat.
Proof.
  intros Hrest.
  destruct (batch_item_cases snap job) as [(_ & _ & ->)|(_ & _ & _ & ->)]; [done|].
  rewrite <-app_comm_cons. simpl.
  rewrite <-app_assoc, max_in_flight_updates. simpl. lia.
Qed.

Lemma max_in_flight_items `{Engine} snap jobs rest :
  (max_in_flight 0 rest ≤ 1)%nat →
  (max_in_flight 0 (concat (map (batch_item snap) jobs) ++ rest) ≤ 1)%nat.
Proof.
  intros Hrest. induction jobs as [|job jobs IH]; [done|].
  simpl. rewrite <-app_assoc. by apply max_in_flight_item.
Qed.

Lemma invocations_of_items `{Engine} snap jobs :
  invocations_of (concat (map (batch_item snap) jobs))
  = map (λ job, id job.1) (List.filter (due snap) jobs).
Proof.
  induction jobs as [|job jobs IH]; [done|].
  simpl. rewrite invocations_of_app, IH.
  destruct (batch_item_cases snap job) as [(_ & -> & ->)|(_ & _ & -> & ->)]; [done|].
  change (invocations_of (Invoke ?k :: ?evs)) with (k :: invocations_of evs).
  by rewrite invocations_of_app, invocations_of_map_Upd.
Qed.

(** X19. A batch started while none is running, over items with distinct
    ids, from a store whose notes are those the render saw, and with no
    other setter call made while it runs. When the loop reaches an item
    whose entry is then done or loading, the turn does nothing: no
    invocation, no state change. When it reaches any other item, the turn
    is one invocation of generation for it, which starts by putting the
    entry to loading and has returned before the pause and the next turn.
    The invocations of the run are the items not skipped, in list order,
    and no two invocations are open at once. *)
Theorem X19_undisturbed_batch_skips_and_runs_in_order `{Engine} snap st jobs :
  processingAll snap = false →
  NoDup (map (λ job, id job.1) jobs) →
  notes st = notes snap →
  (∀ k job, jobs !! k = Some job →
     let entry := notes (state_before snap jobs k st) !! id job.1 in
     let us := generateNotes snap (id job.1) (description job.1) (diff job.1) job.2 in
     (status_of entry = Done ∨ status_of entry = Loading →
      due snap job = false ∧ batch_item snap job = []) ∧
     (status_of entry ≠ Done → status_of entry ≠ Loading →
      due snap job = true ∧
      batch_item snap job
      = Invoke (id job.1) :: map Upd us ++ [Return (id job.1); Delay 1000] ∧
      ∃ rest, us = SetJsonAccumulator (id job.1) "" ::
                   SetNotes (id job.1) loading_entry :: rest)) ∧
  invocations_of (generateAllNotes snap jobs)
  = map (λ job, id job.1) (List.filter (due snap) jobs) ∧
  (max_in_flight 0 (generateAllNotes snap jobs) ≤ 1)%nat.
Proof.
  intros Hidle Hnd Hst. split; [|split].
  - intros k job Hk entry us. unfold entry.
    rewrite (state_before_entry snap st jobs k job Hnd Hst Hk).
    destruct (batch_item_cases snap job)
      as [(Hskip & Hdue & Hitem)|(Hd & Hl & Hdue & Hitem)].
    + split; [done|]. intros ??. by destruct Hskip.
    + split; [by intros [?|?]|]. intros _ _. split; [done|]. split; [done|].
      destruct (proj2 (generateNotes_shape snap (id job.1) (description job.1)
                         (diff job.1) job.2) Hd) as (rest & Hrest).
      by exists rest.
  - unfold generateAllNotes. rewrite Hidle.
    destruct jobs as [|job jobs]; [done|].
    rewrite orb_false_l. cbn [length Nat.eqb].
    change (invocations_of (Upd ?u :: ?evs)) with (invocations_of evs).
    rewrite invocations_of_app, invocations_of_items. simpl. by rewrite app_nil_r.
  - unfold generateAllNotes. rewrite Hidle, orb_false_l.
    destruct (length jobs =? 0)%nat; [simpl; lia|].
    change (max_in_flight 0 (Upd ?u :: ?evs)) with (max_in_flight 0 evs).
    apply max_in_flight_items. simpl. lia.
Qed.

Lemma X19_witness :
  let engine := Sample.engine in
  let snap :=
    {| notes := <["1" := done_entry Sample.notes_ab]> {["2" := loading_entry]};
       jsonAccumulator := ∅;
       processingAll := false |} in
  let jobs :=
    [(Sample.item "1", Sample.full_stream); (Sample.item "2", Sample.full_stream);
     (Sample.item "3", Responds 503 None); (Sample.item "4", Sample.full_stream)] in
  processingAll snap = false ∧
  NoDup (map (λ job, id job.1) jobs) ∧
  notes snap = notes snap ∧
  status_of (notes (state_before snap jobs 0 snap) !! "1") = Done ∧
  batch_item snap (Sample.item "1", Sample.full_stream) = [] ∧
  status_of (notes (state_before snap jobs 1 snap) !! "2") = Loading ∧
  batch_item snap (Sample.item "2", Sample.full_stream) = [] ∧
  invocations_of (generateAllNotes snap jobs) = ["3"; "4"] ∧
  (max_in_flight 0 (generateAllNotes snap jobs) ≤ 1)%nat.
Proof.
  intros engine snap jobs.
  assert (processingAll snap = false) as Hidle by reflexivity.
  assert (NoDup (map (λ job, id job.1) jobs)) as Hnd.
  { apply (bool_decide_unpack _). by vm_compute. }
  destruct (X19_undisturbed_batch_skips_and_runs_in_order snap snap jobs Hidle Hnd
              eq_refl)
    as (Hturn & Hinv & Hmax).
  assert (status_of (notes (state_before snap jobs 0 snap) !! "1") = Done) as H1
    by (vm_compute; reflexivity).
  assert (status_of (notes (state_before snap jobs 1 snap) !! "2") = Loading) as H2
    by (vm_compute; reflexivity).
  split; [exact Hidle|]. split; [exact Hnd|]. split; [reflexivity|].
  split; [exact H1|].
  split; [exact (proj2 (proj1 (Hturn 0%nat _ eq_refl) (or_introl H1)))|].
  split; [exact H2|].
  split; [exact (proj2 (proj1 (Hturn 1%nat _ eq_refl) (or_intror H2)))|].
  split; [exact Hinv|]. exact Hmax.
Defined.

(** The loop reads the notes of the render, not the store: were an id
    listed twice, its second turn would invoke generation again although
    the first turn has left the entry done. *)
Lemma batch_of_repeated_id_generates_twice `{Engine} :
  let jobs := [(Sample.item "42", Sample.full_stream);
               (Sample.item "42", Sample.full_stream)] in
  status_of (notes (state_before initial jobs 1 initial) !! "42") = Done ∧
  invocations_of (generateAllNotes initial jobs) = ["42"; "42"].
Proof. split; by vm_compute. Qed.

(** C7 (defect in the code). The claim: a batch skips every id whose entry
    at that point is done or loading, and never has two invocations in
    flight for the same id. The code: the loop, and the guard of
    [generateNotes] it calls, read the notes of the render the batch was
    started from. A batch over diffs 1 and 2 starts from a render without
    notes. While diff 1 is being generated, the button of diff 2, which
    is enabled since diff 2 is not loading, is clicked in the render that
    shows diff 1 loading. When the loop
    reaches diff 2 its entry is loading if the stream of the click is
    still open, and done if that stream has ended; in both cases the turn
    invokes generation for diff 2, and in the first case two invocations
    for diff 2 are open at once. *)
Theorem C7_batch_reads_the_render_it_started_from `{Engine} :
  let first := (Sample.item "1", Sample.full_stream) in
  let second := (Sample.item "2", Sample.full_stream) in
  let turn1 := batch_item initial first in
  let turn2 := batch_item initial second in
  let started := Upd (SetProcessingAll true) :: take 3 turn1 in
  let render := run (updates_of started) initial in
  let manual := click render second in
  let open := started ++ take 3 manual ++ drop 3 turn1 in
  let ended := started ++ manual ++ drop 3 turn1 in
  generateAllNotes initial [first; second]
  = Upd (SetProcessingAll true) :: turn1 ++ turn2 ++ [Upd (SetProcessingAll false)] ∧
  take 3 turn1
  = [Invoke "1"; Upd (SetJsonAccumulator "1" ""); Upd (SetNotes "1" loading_entry)] ∧
  in_flight (notes render !! "2") = false ∧
  take 3 manual
  = [Invoke "2"; Upd (SetJsonAccumulator "2" ""); Upd (SetNotes "2" loading_entry)] ∧
  drop (length manual - 1) manual = [Return "2"] ∧
  status_of (notes (run (updates_of open) initial) !! "2") = Loading ∧
  status_of (notes (run (updates_of ended) initial) !! "2") = Done ∧
  invocations_of turn2 = ["2"] ∧
  max_in_flight_of "2" 0 (open ++ turn2 ++ drop 3 manual) = 2%nat.
Proof. repeat split; by vm_compute. Qed.

(** ** Further properties *)

(** *** Texts *)

Lemma string_ind2 (P : string → Prop) :
  P EmptyString →
  (∀ a, P (String a EmptyString)) →
  (∀ a b s, P s → P (String b s) → P (String a (String b s))) →
  ∀ s, P s.
Proof.
  intros H0 H1 H2 s.
  assert (P s ∧ ∀ a, P (String a s)) as [? _]; [|done].
  induction s as [|b s [IHs IHbs]]; [by split|].
  split; [apply IHbs|]. intros a. by apply H2.
Qed.

Lemma append_cons a (s t : string) : String a s +:+ t = String a (s +:+ t).
Proof. reflexivity. Qed.

Lemma append_nil_l (s : string) : EmptyString +:+ s = s.
Proof. reflexivity. Qed.

Lemma append_nil_r (s : string) : s +:+ EmptyString = s.
Proof. induction s as [|a s IH]; [done|]. by rewrite append_cons, IH. Qed.

Lemma append_assoc (s t u : string) : (s +:+ t) +:+ u = s +:+ (t +:+ u).
Proof. induction s as [|a s IH]; [done|]. by rewrite !append_cons, IH. Qed.

Lemma split_from_cons2 cur a b s :
  Str.split_frames_from cur (String a (String b s))
  = if Ascii.eqb a Str.LF && Ascii.eqb b Str.LF
    then cur :: Str.split_frames_from EmptyString s
    else Str.split_frames_from (cur +:+ String a EmptyString) (String b s).
Proof. reflexivity. Qed.

Lemma split_from_prepend s cur :
  Str.split_frames_from cur s = Wire.prepend cur (Str.split_frames s).
Proof.
  revert cur. induction s as [|a|a b s IHs IHbs] using string_ind2; intros cur.
  - cbn. by rewrite append_nil_r.
  - done.
  - unfold Str.split_frames. rewrite !split_from_cons2.
    destruct (Ascii.eqb a Str.LF && Ascii.eqb b Str.LF).
    + cbn. by rewrite append_nil_r.
    + rewrite (IHbs (cur +:+ String a EmptyString)),
        (IHbs (EmptyString +:+ String a EmptyString)).
      destruct (Str.split_frames (String b s)); [done|].
      cbn. by rewrite append_assoc.
Qed.

Lemma split_frames_cons2 a b s :
  Str.split_frames (String a (String b s))
  = if Ascii.eqb a Str.LF && Ascii.eqb b Str.LF
    then EmptyString :: Str.split_frames s
    else Wire.prepend (String a EmptyString) (Str.split_frames (String b s)).
Proof.
  unfold Str.split_frames at 1. rewrite split_from_cons2.
  destruct (_ && _); [done|]. apply split_from_prepend.
Qed.

Lemma split_frames_nonempty s : Str.split_frames s ≠ [].
Proof.
  induction s as [|a|a b s IHs IHbs] using string_ind2; try done.
  rewrite split_frames_cons2.
  destruct (_ && _); [done|].
  by destruct (Str.split_frames (String b s)).
Qed.

Lemma split_frames_single s x : Str.split_frames s = [x] → x = s.
Proof.
  revert x. induction s as [|a|a b s IHs IHbs] using string_ind2; intros x.
  - by intros [= <-].
  - by intros [= <-].
  - rewrite split_frames_cons2. destruct (_ && _).
    + pose proof (split_frames_nonempty s).
      destruct (Str.split_frames s); [done|]. done.
    + destruct (Str.split_frames (String b s)) as [|y [|z r]] eqn:Hs; try done.
      simpl. intros [= <-]. by rewrite (IHbs y eq_refl).
Qed.

Lemma removelast_cons {A} (x : A) l : l ≠ [] → removelast (x :: l) = x :: removelast l.
Proof. by destruct l. Qed.

Lemma last_cons {A} (x d : A) l : l ≠ [] → List.last (x :: l) d = List.last l d.
Proof. by destruct l. Qed.

(** Splitting a text that goes on: the segments closed so far stay, and
    the open one is read again with what follows. *)
Lemma split_frames_app s t :
  Str.split_frames (s +:+ t)
  = removelast (Str.split_frames s)
    ++ Str.split_frames (List.last (Str.split_frames s) EmptyString +:+ t).
Proof.
  induction s as [|a|a b s IHs IHbs] using string_ind2.
  - done.
  - done.
  - rewrite !append_cons, !split_frames_cons2.
    destruct (Ascii.eqb a Str.LF && Ascii.eqb b Str.LF) eqn:Hsep.
    + pose proof (split_frames_nonempty s).
      rewrite removelast_cons, last_cons by done.
      rewrite <-app_comm_cons. by rewrite IHs.
    + rewrite <-append_cons, IHbs.
      destruct (Str.split_frames (String b s)) as [|x [|y r]] eqn:Hs.
      * by apply split_frames_nonempty in Hs.
      * apply split_frames_single in Hs as ->.
        cbn [removelast List.last app Wire.prepend].
        repeat (rewrite append_cons || rewrite append_nil_l).
        by rewrite split_frames_cons2, Hsep.
      * done.
Qed.

(** The open segment holds no separator. *)
Lemma split_frames_last s :
  Str.split_frames (List.last (Str.split_frames s) EmptyString)
  = [List.last (Str.split_frames s) EmptyString].
Proof.
  induction s as [|a|a b s IHs IHbs] using string_ind2; try done.
  rewrite split_frames_cons2.
  destruct (Ascii.eqb a Str.LF && Ascii.eqb b Str.LF) eqn:Hsep.
  - rewrite last_cons by apply split_frames_nonempty. done.
  - destruct (Str.split_frames (String b s)) as [|x [|y r]] eqn:Hs.
    + by apply split_frames_nonempty in Hs.
    + pose proof Hs as Hs'. apply split_frames_single in Hs as ->.
      cbn [List.last Wire.prepend].
      repeat (rewrite append_cons || rewrite append_nil_l).
      by rewrite split_frames_cons2, Hsep, Hs'.
    + done.
Qed.

Lemma removelast_app_nonempty {A} (l k : list A) :
  k ≠ [] → removelast (l ++ k) = l ++ removelast k.
Proof. intros. by apply removelast_app. Qed.

Lemma stream_text_cons chunk chunks :
  Wire.stream_text (chunk :: chunks) = chunk +:+ Wire.stream_text chunks.
Proof. reflexivity. Qed.

(** The frames handled over a stream are the segments of its whole text
    closed by a blank line; the segment left open at the end is not one. *)
Lemma frames_of_text chunks partialData :
  Str.split_frames partialData = [partialData] →
  frames_of partialData chunks
  = removelast (Str.split_frames (partialData +:+ Wire.stream_text chunks)).
Proof.
  revert partialData. induction chunks as [|chunk chunks IH]; intros p Hp.
  - cbn. by rewrite append_nil_r, Hp.
  - cbn [frames_of pop_last]. rewrite stream_text_cons, <-append_assoc.
    rewrite (split_frames_app (p +:+ chunk)).
    rewrite removelast_app_nonempty by apply split_frames_nonempty.
    by rewrite IH by apply split_frames_last.
Qed.

Lemma handle_lines_app `{Engine} snap k lines lines' :
  handle_lines snap k (lines ++ lines')
  = match handle_lines snap k lines with
    | (us, Some t) => (us, Some t)
    | (us, None) =>
        let '(us', r) := handle_lines snap k lines' in (us ++ us', r)
    end.
Proof.
  induction lines as [|line lines IH]; simpl.
  - by destruct (handle_lines snap k lines').
  - destruct (handle_line snap k line) as [us [t|]]; [done|].
    rewrite IH. destruct (handle_lines snap k lines) as [us1 [t|]]; [done|].
    destruct (handle_lines snap k lines') as [us2 r]. by rewrite app_assoc.
Qed.

(** The reading loop handles the frames of the stream in order, up to the
    first one that throws, and then ends as the stream ends. *)
Lemma read_loop_frames `{Engine} snap k partialData chunks ending :
  read_loop snap k partialData chunks ending
  = Wire.finish (handle_lines snap k (frames_of partialData chunks)) ending.
Proof.
  revert partialData. induction chunks as [|chunk chunks IH]; intros p.
  - by destruct ending.
  - cbn [read_loop frames_of pop_last]. rewrite handle_lines_app, IH.
    destruct (handle_lines snap k (removelast _)) as [us [t|]]; [done|].
    destruct (handle_lines snap k (frames_of _ chunks)) as [us' [t|]]; [done|].
    by destruct ending.
Qed.

Lemma no_line_feed_cons a s :
  Wire.no_line_feed (String a s) = true →
  Ascii.eqb a Str.LF = false ∧ Wire.no_line_feed s = true.
Proof. simpl. destruct (Ascii.eqb a Str.LF); naive_solver. Qed.

Lemma split_from_line x cur rest :
  Wire.no_line_feed x = true →
  Str.split_frames_from cur (x +:+ Wire.blank_line +:+ rest)
  = (cur +:+ x) :: Str.split_frames rest.
Proof.
  change (Wire.blank_line +:+ rest) with (String Str.LF (String Str.LF rest)).
  revert cur. induction x as [|a x IH]; intros cur Hx.
  - rewrite append_nil_l, append_nil_r. reflexivity.
  - apply no_line_feed_cons in Hx as [Ha Hx]. rewrite append_cons.
    destruct x as [|b x].
    + rewrite append_nil_l, split_from_cons2, Ha. cbn [andb].
      by rewrite split_from_cons2.
    + rewrite append_cons, split_from_cons2, Ha. cbn [andb].
      rewrite <-append_cons, (IH _ Hx), append_assoc. done.
Qed.

Lemma split_frames_sse payloads :
  Forall (λ p, Wire.no_line_feed p = true) payloads →
  Str.split_frames (Wire.stream_text (map Wire.sse_frame payloads))
  = map (String.append "data: ") payloads ++ [EmptyString].
Proof.
  induction 1 as [|p payloads Hp _ IH]; [done|].
  cbn [map]. rewrite stream_text_cons. unfold Wire.sse_frame at 1.
  rewrite <-append_assoc, append_assoc.
  unfold Str.split_frames at 1.
  rewrite (split_from_line ("data: " +:+ p)), IH; [done|].
  by vm_compute in Hp |- *.
Qed.

Lemma frames_of_stream chunks : frames_of EmptyString chunks = Wire.closed_segments chunks.
Proof. by rewrite frames_of_text. Qed.

(** X1. The reading loop, fed a stream chunk by chunk with its rolling
    buffer, handles exactly the segments of the whole text that a blank
    line closes, in order and up to the first that throws; the text after
    the last blank line is never handled. *)
Theorem X1_reading_loop_handles_closed_segments `{Engine} snap diffId chunks ending :
  read_loop snap diffId EmptyString chunks ending
  = Wire.finish
      (handle_lines snap diffId
         (Wire.closed_segments chunks))
      ending.
Proof. by rewrite read_loop_frames, frames_of_stream. Qed.

(** X2. Where the decoded text of a stream is cut into chunks does not
    matter: two streams whose chunk texts join into the same text, with the
    same status and end, make [generateNotes] issue the same state setter
    calls. *)
Theorem X2_chunk_boundaries_do_not_matter `{Engine}
    snap diffId description diff status chunks chunks' ending :
  Wire.stream_text chunks = Wire.stream_text chunks' →
  generateNotes snap diffId description diff
    (Responds status (Some {| chunks := chunks; ending := ending |}))
  = generateNotes snap diffId description diff
      (Responds status (Some {| chunks := chunks'; ending := ending |})).
Proof.
  intros Htext. unfold generateNotes, attempt. cbn [Page.chunks Page.ending].
  rewrite !read_loop_frames, !frames_of_stream. unfold Wire.closed_segments.
  by rewrite Htext.
Qed.

Lemma X2_witness :
  let engine := Sample.engine in
  Wire.stream_text Cases.chunks_by_frame
  = Wire.stream_text Cases.chunks_cut_mid_frame ∧
  generateNotes initial "42" "Fix caching bug" "patch"
    (Responds 200 (Some {| chunks := Cases.chunks_by_frame; ending := Closed |}))
  = generateNotes initial "42" "Fix caching bug" "patch"
      (Responds 200 (Some {| chunks := Cases.chunks_cut_mid_frame;
                             ending := Closed |})).
Proof.
  intros engine.
  assert (Wire.stream_text Cases.chunks_by_frame
          = Wire.stream_text Cases.chunks_cut_mid_frame) as Htext
    by (vm_compute; reflexivity).
  split; [exact Htext|].
  exact (X2_chunk_boundaries_do_not_matter initial "42" "Fix caching bug" "patch"
           200 Cases.chunks_by_frame Cases.chunks_cut_mid_frame Closed Htext).
Defined.

(** X3. The frames the route enqueues, each the prefix [data: ], a payload
    and a blank line, for payloads free of line feeds, are recovered by the
    reading loop one by one and in order, whenever the decoded chunks join
    into the text enqueued, however it was cut; each line passes the prefix
    test and gives back its payload at offset 6. *)
Theorem X3_reader_recovers_server_frames `{Engine} snap diffId payloads chunks ending :
  Forall (λ p, Wire.no_line_feed p = true) payloads →
  Wire.stream_text chunks = Wire.stream_text (map Wire.sse_frame payloads) →
  read_loop snap diffId EmptyString chunks ending
  = Wire.finish
      (handle_lines snap diffId (map (String.append "data: ") payloads)) ending ∧
  ∀ p, Str.startsWith ("data: " +:+ p) "data: " = true ∧
       Str.substring_from 6 ("data: " +:+ p) = p.
Proof.
  intros Hp Htext. split; [|intros p; split; [by destruct p|reflexivity]].
  rewrite read_loop_frames, frames_of_stream. unfold Wire.closed_segments.
  rewrite Htext, split_frames_sse by done.
  by rewrite removelast_last.
Qed.

Lemma X3_witness :
  let engine := Sample.engine in
  Forall (λ p, Wire.no_line_feed p = true) Cases.payloads ∧
  Wire.stream_text Cases.chunks_cut_mid_frame
  = Wire.stream_text (map Wire.sse_frame Cases.payloads) ∧
  read_loop initial "42" EmptyString Cases.chunks_cut_mid_frame Closed
  = Wire.finish
      (handle_lines initial "42" (map (String.append "data: ") Cases.payloads))
      Closed.
Proof.
  intros engine.
  assert (Forall (λ p, Wire.no_line_feed p = true) Cases.payloads) as Hp.
  { repeat (apply List.Forall_cons; [reflexivity|]). apply List.Forall_nil. }
  assert (Wire.stream_text Cases.chunks_cut_mid_frame
          = Wire.stream_text (map Wire.sse_frame Cases.payloads)) as Htext
    by (vm_compute; reflexivity).
  split; [exact Hp|]. split; [exact Htext|].
  exact (proj1 (X3_reader_recovers_server_frames initial "42" Cases.payloads
                  Cases.chunks_cut_mid_frame Closed Hp Htext)).
Defined.

(** *** What each kind of frame does *)

Lemma handle_line_no_throw `{Engine} snap k line :
  Wire.classify line ≠ Wire.Malformed → (handle_line snap k line).2 = None.
Proof.
  unfold Wire.classify, handle_line.
  destruct (Str.startsWith line "data: "); [|done].
  by destruct (parse _) as [[]|].
Qed.

Lemma handle_line_quiet `{Engine} snap k line :
  Wire.classify line = Wire.Ignored ∨ Wire.classify line = Wire.OtherEvent →
  handle_line snap k line = ([], None).
Proof.
  unfold Wire.classify, handle_line.
  destruct (Str.startsWith line "data: "); [|done].
  destruct (parse _) as [ev|]; [|by intros [|]].
  destruct ev; try (by intros [|]).
  all: destruct (event_is _ DELTA); [by intros [|]|].
  all: destruct (event_is _ DONE); by intros [|].
Qed.

Lemma handle_lines_quiet `{Engine} snap k lines :
  Forall (λ l, Wire.classify l = Wire.Ignored ∨ Wire.classify l = Wire.OtherEvent)
    lines →
  handle_lines snap k lines = ([], None).
Proof.
  induction 1 as [|line lines Hl _ IH]; [done|].
  simpl. by rewrite (handle_line_quiet snap k line Hl), IH.
Qed.

Lemma handle_lines_no_throw `{Engine} snap k lines :
  Forall (λ l, Wire.classify l ≠ Wire.Malformed) lines →
  (handle_lines snap k lines).2 = None.
Proof.
  induction 1 as [|line lines Hl _ IH]; [done|].
  simpl. pose proof (handle_line_no_throw snap k line Hl) as Hline.
  destruct (handle_line snap k line) as [us r]. simpl in Hline. subst r.
  by destruct (handle_lines snap k lines).
Qed.

Lemma handle_line_done `{Engine} snap k line text completedData :
  done_frame line text →
  parse text = Some completedData →
  handle_line snap k line = ([SetNotes k (done_entry completedData)], None).
Proof.
  intros (Hpre & eventData & d & Hparse & Hev & Hd & Ht) Hv.
  unfold handle_line. rewrite Hpre, Hparse.
  rewrite (done_is_not_delta _ Hev), Hev.
  unfold handle_done. rewrite Hd, Ht, Hv.
  destruct eventData; try done.
  destruct d; try done.
  simpl in Ht. injection Ht as <-. by vm_compute in Hv.
Qed.

(** The setter calls of a frame that is not a done event keep an entry
    loading. *)
Lemma handle_line_keeps_loading `{Engine} snap k line u :
  Wire.classify line ≠ Wire.DoneEvent →
  u ∈ (handle_line snap k line).1 →
  match u with
  | SetNotes k' e => k' = k ∧ loading e = true
  | SetJsonAccumulator _ _ => True
  | _ => False
  end.
Proof.
  unfold Wire.classify, handle_line.
  destruct (Str.startsWith line "data: "); [|by intros _ ?%elem_of_nil].
  destruct (parse _) as [ev|]; [|by intros _ ?%elem_of_nil].
  assert (event_is ev DONE = false →
          u ∈ (if event_is ev DELTA then handle_delta snap k ev else [])
              ++ (if event_is ev DONE then handle_done k ev else []) →
          match u with
          | SetNotes k' e => k' = k ∧ loading e = true
          | SetJsonAccumulator _ _ => True
          | _ => False
          end) as Hmain.
  { intros ->. rewrite app_nil_r.
    destruct (event_is ev DELTA); [|by intros ?%elem_of_nil].
    intros (d & delta & _ & _ & [->|(entry & Hp & ->)])%handle_delta_inv; [done|].
    apply attempt_partial_shape in Hp as [p ->]. done. }
  destruct (event_is ev DONE) eqn:Hdone.
  - rewrite (done_is_not_delta _ Hdone). by destruct ev.
  - destruct ev; try (by intros _ ?%elem_of_nil); intros _; by apply Hmain.
Qed.

Lemma handle_lines_keep_loading `{Engine} snap k lines u :
  Forall (λ l, Wire.classify l ≠ Wire.DoneEvent) lines →
  u ∈ (handle_lines snap k lines).1 →
  match u with
  | SetNotes k' e => k' = k ∧ loading e = true
  | SetJsonAccumulator _ _ => True
  | _ => False
  end.
Proof.
  induction 1 as [|line lines Hl _ IH]; simpl; [by intros ?%elem_of_nil|].
  pose proof (handle_line_keeps_loading snap k line u Hl) as Hline.
  destruct (handle_line snap k line) as [us [t|]]; simpl in *; [exact Hline|].
  destruct (handle_lines snap k lines) as [us' r]; simpl in *.
  intros [?|?]%elem_of_app; [by apply Hline|by apply IH].
Qed.

Lemma run_keeps_loading k us st e0 :
  notes st !! k = Some e0 → loading e0 = true →
  (∀ u, u ∈ us → match u with
                 | SetNotes k' e => k' = k ∧ loading e = true
                 | SetJsonAccumulator _ _ => True
                 | _ => False
                 end) →
  ∃ e, notes (run us st) !! k = Some e ∧ loading e = true.
Proof.
  revert st e0. induction us as [|u us IH]; intros st e0 Hk Hload Hus; [eauto|].
  rewrite run_cons. pose proof (Hus u ltac:(left)) as Hu.
  destruct u as [k' text|k' e| |]; try done.
  - apply (IH _ e0); [done..|]. intros u' Hu'. apply Hus. by right.
  - destruct Hu as [-> Hle]. apply (IH _ e); [apply lookup_insert_eq|done|].
    intros u' Hu'. apply Hus. by right.
Qed.

Lemma attempt_over_frames `{Engine} snap k status chunks ending :
  response_ok status = true →
  attempt snap k (Responds status (Some {| chunks := chunks; ending := ending |}))
  = Wire.finish
      (handle_lines snap k (Wire.closed_segments chunks))
      ending.
Proof.
  intros Hok. unfold attempt. rewrite Hok. cbn [negb Page.chunks Page.ending].
  by rewrite read_loop_frames, frames_of_stream.
Qed.

(** X4. An attempt that starts, on an OK response whose stream closes
    cleanly with no malformed frame and no done event, leaves the entry of
    the diff loading: it is neither finished nor put in error. Such an
    entry is not stored by a save pass, and a batch started from that state
    skips the diff. *)
Theorem X4_clean_close_without_done_stays_loading `{Engine}
    snap diffId description diff status chunks st :
  generated (notes snap !! diffId) = false →
  response_ok status = true →
  Forall (λ l, Wire.classify l ≠ Wire.Malformed ∧ Wire.classify l ≠ Wire.DoneEvent)
    (Wire.closed_segments chunks) →
  let st' := run (generateNotes snap diffId description diff
                    (Responds status (Some {| chunks := chunks; ending := Closed |})))
               st in
  ∃ e, notes st' !! diffId = Some e ∧
       loading e = true ∧
       status_of (notes st' !! diffId) = Loading ∧
       (∀ now, to_cache now e = None) ∧
       (∀ job, id job.1 = diffId → due st' job = false).
Proof.
  intros Hgen Hok Hframes st'.
  assert (∃ e, notes st' !! diffId = Some e ∧ loading e = true) as (e & He & Hload).
  { unfold st', generateNotes. rewrite Hgen, attempt_over_frames by done.
    set (frames := Wire.closed_segments chunks) in *.
    pose proof (handle_lines_no_throw snap diffId frames) as Hno.
    pose proof (λ u, handle_lines_keep_loading snap diffId frames u) as Hkeep.
    destruct (handle_lines snap diffId frames) as [us r]. simpl in Hno, Hkeep.
    assert (r = None) as ->.
    { apply Hno. eapply Forall_impl; [|exact Hframes]. by intros ? [? ?]. }
    cbn [Wire.finish]. rewrite !run_cons.
    apply (run_keeps_loading diffId us _ loading_entry);
      [apply lookup_insert_eq|done|].
    intros u Hu. apply Hkeep; [|done].
    eapply Forall_impl; [|exact Hframes]. by intros ? [? ?]. }
  exists e. split; [done|]. split; [done|]. split; [|split].
  - rewrite He. simpl. by rewrite Hload.
  - intros now. unfold to_cache. by rewrite Hload.
  - intros job <-. unfold due. rewrite He. simpl. rewrite Hload.
    by rewrite andb_false_r.
Qed.

Lemma X4_witness :
  let engine := Sample.engine in
  let cs := [Sample.frame Sample.delta_line1; Sample.frame Sample.delta_line2] in
  let st' := run (generateNotes initial "42" "Fix caching bug" "patch"
                    (Responds 200 (Some {| chunks := cs; ending := Closed |})))
               initial in
  generated (notes initial !! "42") = false ∧
  response_ok 200 = true ∧
  Forall (λ l, Wire.classify l ≠ Wire.Malformed ∧ Wire.classify l ≠ Wire.DoneEvent)
    (Wire.closed_segments cs) ∧
  ∃ e, notes st' !! "42" = Some e ∧
       loading e = true ∧
       status_of (notes st' !! "42") = Loading ∧
       (∀ now, to_cache now e = None) ∧
       (∀ job, id job.1 = "42" → due st' job = false).
Proof.
  intros engine cs st'.
  assert (Forall (λ l, Wire.classify l ≠ Wire.Malformed ∧
                       Wire.classify l ≠ Wire.DoneEvent)
            (Wire.closed_segments cs)) as Hframes.
  { change (Wire.closed_segments cs)
      with [Sample.delta_line1; Sample.delta_line2].
    repeat (apply List.Forall_cons; [split; by vm_compute|]). apply List.Forall_nil. }
  split; [reflexivity|]. split; [reflexivity|]. split; [exact Hframes|].
  exact (X4_clean_close_without_done_stays_loading initial "42" "Fix caching bug"
           "patch" 200 cs initial eq_refl eq_refl Hframes).
Defined.

(** X5. An attempt that starts, on an OK response that closes cleanly, in
    which a done frame with parsable text comes after frames that do not
    throw and before frames that are ignored only, ends with the entry of
    the diff not loading, without error, with the parse of that text as
    data. *)
Theorem X5_done_frame_completes `{Engine}
    snap diffId description diff status chunks before line after text completedData st :
  generated (notes snap !! diffId) = false →
  response_ok status = true →
  Wire.closed_segments chunks = before ++ line :: after →
  Forall (λ l, Wire.classify l ≠ Wire.Malformed) before →
  Forall (λ l, Wire.classify l = Wire.Ignored ∨ Wire.classify l = Wire.OtherEvent)
    after →
  done_frame line text →
  parse text = Some completedData →
  notes (run (generateNotes snap diffId description diff
                (Responds status (Some {| chunks := chunks; ending := Closed |})))
           st) !! diffId
  = Some (done_entry completedData).
Proof.
  intros Hgen Hok Hframes Hbefore Hafter Hline Hv.
  unfold generateNotes. rewrite Hgen, attempt_over_frames, Hframes by done.
  rewrite handle_lines_app.
  pose proof (handle_lines_no_throw snap diffId before Hbefore) as Hno.
  destruct (handle_lines snap diffId before) as [us r]. simpl in Hno. subst r.
  cbn [handle_lines].
  rewrite (handle_line_done snap diffId line text completedData Hline Hv).
  rewrite (handle_lines_quiet snap diffId after Hafter).
  cbn [Wire.finish app]. rewrite !run_cons, run_snoc. apply lookup_insert_eq.
Qed.

Lemma X5_witness :
  let engine := Sample.engine in
  let text := Str.dq "{'developerNote':'a','marketingNote':'b'}" in
  generated (notes initial !! "42") = false ∧
  response_ok 200 = true ∧
  Wire.closed_segments Cases.chunks_by_frame
  = [Sample.delta_line1; Sample.delta_line2] ++ Sample.done_line3 :: [] ∧
  Forall (λ l, Wire.classify l ≠ Wire.Malformed)
    [Sample.delta_line1; Sample.delta_line2] ∧
  done_frame Sample.done_line3 text ∧
  parse text = Some Sample.notes_ab ∧
  notes (run (generateNotes initial "42" "Fix caching bug" "patch"
                (Responds 200 (Some {| chunks := Cases.chunks_by_frame;
                                       ending := Closed |})))
           initial) !! "42"
  = Some (done_entry Sample.notes_ab).
Proof.
  intros engine text.
  assert (Wire.closed_segments Cases.chunks_by_frame
          = [Sample.delta_line1; Sample.delta_line2] ++ Sample.done_line3 :: [])
    as Hframes by (vm_compute; reflexivity).
  assert (Forall (λ l, Wire.classify l ≠ Wire.Malformed)
            [Sample.delta_line1; Sample.delta_line2]) as Hbefore.
  { repeat (apply List.Forall_cons; [by vm_compute|]). apply List.Forall_nil. }
  assert (done_frame Sample.done_line3 text) as Hline.
  { split; [reflexivity|]. eexists _, _. repeat split; vm_compute; reflexivity. }
  assert (parse text = Some Sample.notes_ab) as Hv by (vm_compute; reflexivity).
  split; [reflexivity|]. split; [reflexivity|]. split; [exact Hframes|].
  split; [exact Hbefore|]. split; [exact Hline|]. split; [exact Hv|].
  exact (X5_done_frame_completes initial "42" "Fix caching bug" "patch" 200
           Cases.chunks_by_frame [Sample.delta_line1; Sample.delta_line2]
           Sample.done_line3 [] text Sample.notes_ab initial
           eq_refl eq_refl Hframes Hbefore (List.Forall_nil _) Hline Hv).
Defined.

(** A done event whose text is a number too large for a double: the text
    [JSON.parse] is given is [Infinity], which it rejects, and the frame
    makes no setter call. *)
Lemma overflowing_done_text_is_not_parsed `{Engine} snap k :
  let line := Sample.line "{'event':'response.output_text.done','data':{'text':1e400}}" in
  done_frame line "Infinity" ∧
  parse "Infinity" = None ∧
  handle_line snap k line = ([], None).
Proof.
  split; [|split; reflexivity].
  split; [reflexivity|]. eexists _, _. repeat split; vm_compute; reflexivity.
Qed.

Lemma run_issued_rest snap k frames us st other :
  (∀ u, u ∈ us → issued snap k frames u) →
  other ≠ k →
  jsonAccumulator (run us st) !! other = jsonAccumulator st !! other ∧
  processingAll (run us st) = processingAll st.
Proof.
  revert st. induction us as [|u us IH]; intros st Hus Hne; [done|].
  rewrite run_cons.
  destruct (IH (apply st u)) as [-> ->]; [intros u' Hu'; apply Hus; by right|done|].
  destruct (Hus u); [left|..]; simpl; try done.
  all: by rewrite lookup_insert_ne.
Qed.

(** X6. An attempt for one diff leaves the entry and the accumulator of
    every other diff, and the batch flag, as they were. *)
Theorem X6_attempt_touches_only_its_diff `{Engine} snap diffId description diff net st other :
  other ≠ diffId →
  let st' := run (generateNotes snap diffId description diff net) st in
  notes st' !! other = notes st !! other ∧
  jsonAccumulator st' !! other = jsonAccumulator st !! other ∧
  processingAll st' = processingAll st.
Proof.
  intros Hne st'. split.
  - eapply run_issued_frame; [|done].
    intros u. apply generateNotes_issued.
  - eapply run_issued_rest; [|done].
    intros u. apply generateNotes_issued.
Qed.

Lemma X6_witness :
  let engine := Sample.engine in
  let st := Sample.with_entry "7" (done_entry Sample.notes_ab) in
  let st' := run (generateNotes st "42" "Fix caching bug" "patch" Sample.full_stream)
               st in
  "7" ≠ "42" ∧
  notes st' !! "7" = notes st !! "7" ∧
  jsonAccumulator st' !! "7" = jsonAccumulator st !! "7" ∧
  processingAll st' = processingAll st.
Proof.
  intros engine st st'.
  assert ("7" ≠ "42") as Hne by discriminate.
  split; [exact Hne|].
  exact (X6_attempt_touches_only_its_diff st "42" "Fix caching bug" "patch"
           Sample.full_stream st "7" Hne).
Defined.

(** *** The batch, item by item *)

Lemma updates_of_batch_item `{Engine} snap job :
  updates_of (batch_item snap job)
  = if due snap job
    then generateNotes snap (id job.1) (description job.1) (diff job.1) job.2
    else [].
Proof.
  destruct (batch_item_cases snap job) as [(_ & -> & ->)|(_ & _ & -> & ->)]; [done|].
  change (updates_of (Invoke ?k :: ?evs)) with (updates_of evs).
  by rewrite updates_of_app, updates_of_map_Upd, app_nil_r.
Qed.

(** The entry of a diff after the setter calls of an attempt for it
    depends on the store through that entry alone. *)
Lemma run_issued_local snap k frames us st1 st2 :
  (∀ u, u ∈ us → issued snap k frames u) →
  notes st1 !! k = notes st2 !! k →
  notes (run us st1) !! k = notes (run us st2) !! k.
Proof.
  revert st1 st2. induction us as [|u us IH]; intros st1 st2 Hus Heq; [done|].
  rewrite !run_cons. apply IH; [intros u' Hu'; apply Hus; by right|].
  destruct (Hus u); [left|..]; simpl; try done.
  all: by rewrite !lookup_insert_eq.
Qed.

Lemma later_ids_differ {A} (f : A → string) jobs i job :
  NoDup (map f jobs) →
  jobs !! i = Some job →
  ∀ job', job' ∈ drop (S i) jobs → f job ≠ f job'.
Proof.
  revert i. induction jobs as [|j jobs IH]; intros i Hnd Hi job' Hin; [done|].
  simpl in Hnd. inversion Hnd as [|? ? Hj Hnd']; subst.
  destruct i as [|i]; simpl in *.
  - injection Hi as ->. rewrite drop_0 in Hin. intros Heq. apply Hj. rewrite Heq.
    by apply list_elem_of_In, in_map, list_elem_of_In.
  - by eapply IH.
Qed.

Lemma batch_run_shape `{Engine} snap jobs :
  processingAll snap = false → jobs ≠ [] →
  updates_of (generateAllNotes snap jobs)
  = SetProcessingAll true ::
    updates_of (concat (map (batch_item snap) jobs)) ++ [SetProcessingAll false].
Proof.
  intros Hidle Hjobs. unfold generateAllNotes. rewrite Hidle, orb_false_l.
  destruct jobs as [|job jobs]; [done|]. cbn [length Nat.eqb].
  change (updates_of (Upd ?u :: ?evs)) with (u :: updates_of evs).
  by rewrite updates_of_app.
Qed.

(** X7. In a batch over items with distinct ids, the entry of each item
    after the batch is the entry its own attempt alone would leave (the
    entry from before, for an item the loop skips): the turns do not
    interfere. *)
Theorem X7_batch_entry_is_that_of_the_attempt_alone `{Engine} snap st jobs i job :
  processingAll snap = false →
  NoDup (map (λ job, id job.1) jobs) →
  jobs !! i = Some job →
  notes (run (updates_of (generateAllNotes snap jobs)) st) !! id job.1
  = notes (run (if due snap job
                then generateNotes snap (id job.1) (description job.1)
                       (diff job.1) job.2
                else []) st) !! id job.1.
Proof.
  intros Hidle Hnd Hi.
  rewrite batch_run_shape; [|done|by intros ->].
  rewrite run_cons, run_snoc.
  rewrite <-(take_drop_middle jobs i job Hi) at 1.
  rewrite map_app, concat_app. cbn [map concat].
  rewrite !updates_of_app, !run_app.
  change (notes (apply ?s (SetProcessingAll false))) with (notes s).
  rewrite batch_items_frame;
    [|by apply (later_ids_differ (λ job, id job.1) jobs i job Hnd Hi)].
  rewrite <-updates_of_batch_item.
  apply (run_issued_local snap (id job.1) (frames_delivered job.2)).
  - intros u (ev & Hev & Hu)%list_elem_of_omap.
    destruct ev; try done. injection Hu as ->.
    by apply (batch_item_update snap job).
  - rewrite batch_items_frame; [done|].
    by apply (earlier_ids_differ (λ job, id job.1) jobs i job Hnd Hi).
Qed.

Lemma X7_witness :
  let engine := Sample.engine in
  let job := (Sample.item "3", Responds 503 None) in
  processingAll Cases.snapshot = false ∧
  NoDup (map (λ job, id job.1) Cases.jobs) ∧
  Cases.jobs !! 2%nat = Some job ∧
  notes (run (updates_of (generateAllNotes Cases.snapshot Cases.jobs))
           Cases.snapshot) !! "3"
  = notes (run (generateNotes Cases.snapshot "3" "Fix caching bug" "patch"
                  (Responds 503 None)) Cases.snapshot) !! "3".
Proof.
  intros engine job.
  assert (NoDup (map (λ job, id job.1) Cases.jobs)) as Hnd.
  { apply (bool_decide_unpack _). by vm_compute. }
  split; [reflexivity|]. split; [exact Hnd|]. split; [reflexivity|].
  exact (X7_batch_entry_is_that_of_the_attempt_alone Cases.snapshot Cases.snapshot
           Cases.jobs 2%nat job eq_refl Hnd eq_refl).
Defined.

(** X8. A batch changes no entry of a diff outside its list; invoked
    while another batch runs it changes nothing; when it runs it ends with
    [processingAll] false, whatever the outcomes of its attempts. *)
Theorem X8_batch_leaves_other_diffs_and_releases_flag `{Engine} snap st jobs :
  let st' := run (updates_of (generateAllNotes snap jobs)) st in
  (∀ other, (∀ job, job ∈ jobs → other ≠ id job.1) →
            notes st' !! other = notes st !! other) ∧
  (processingAll snap = true → st' = st) ∧
  (processingAll snap = false → jobs ≠ [] → processingAll st' = false).
Proof.
  intros st'. unfold st'. split; [|split].
  - intros other Hother. unfold generateAllNotes.
    destruct (_ || _); [done|].
    change (updates_of (Upd ?u :: ?evs)) with (u :: updates_of evs).
    rewrite updates_of_app, run_cons, run_app.
    change (notes (run (updates_of [Upd (SetProcessingAll false)]) ?s))
      with (notes s).
    by rewrite batch_items_frame.
  - intros Hbusy. unfold generateAllNotes. by rewrite Hbusy.
  - intros Hidle Hjobs. by rewrite batch_run_shape, run_cons, run_snoc.
Qed.

(** *** More on the cache *)

Lemma from_cache_Some now ce e :
  from_cache now ce = Some e ↔
  (now - timestamp ce < CACHE_EXPIRATION)%Z ∧
  e = {| loading := false; error := None; data := cached_data ce |}.
Proof.
  unfold from_cache.
  destruct (Z.ltb_spec (now - timestamp ce) CACHE_EXPIRATION); split.
  - by intros [= <-].
  - by intros [_ ->].
  - done.
  - intros [? _]. lia.
Qed.

(** X9. Loading a stored cache replaces the notes by exactly its entries
    younger than 24 hours, each not loading and without error with its
    stored data: whatever entries were there before are gone, and the
    accumulator is untouched. With no item, or an unparsable one, nothing
    changes. *)
Theorem X9_load_seeds_exactly_the_unexpired cache now st :
  (∀ k e,
     notes (run (loadNotesFromCache (Stored cache) now) st) !! k = Some e ↔
     ∃ ce, cache !! k = Some ce ∧
           (now - timestamp ce < CACHE_EXPIRATION)%Z ∧
           e = {| loading := false; error := None; data := cached_data ce |}) ∧
  jsonAccumulator (run (loadNotesFromCache (Stored cache) now) st)
  = jsonAccumulator st ∧
  run (loadNotesFromCache NoItem now) st = st ∧
  run (loadNotesFromCache Unparsable now) st = st.
Proof.
  split; [|done]. intros k e. rewrite loaded_entry.
  destruct (cache !! k) as [ce|]; simpl.
  - rewrite from_cache_Some. split.
    + intros [? ?]. by exists ce.
    + by intros (ce' & [= <-] & ? & ?).
  - split; [done|]. by intros (ce & ? & _).
Qed.

(** X10. A save pass over freshly loaded notes stores again exactly the
    unexpired entries with truthy data, each with the time of that save as
    its timestamp and its data written to text once more: loading the page
    renews the age of every entry it keeps. *)
Theorem X10_save_after_load_restamps cache loaded saved st storage k ce' :
  let ns := notes (run (loadNotesFromCache (Stored cache) loaded) st) in
  stored_entry (saveNotesToCache ns saved true storage) k = Some ce' ↔
  ∃ ce, cache !! k = Some ce ∧
        (loaded - timestamp ce < CACHE_EXPIRATION)%Z ∧
        truthy (cached_data ce) = true ∧
        ce' = {| timestamp := saved; cached_data := stored (cached_data ce) |}.
Proof.
  intros ns. rewrite saved_entry. unfold ns. rewrite loaded_entry.
  destruct (cache !! k) as [ce|]; simpl.
  - destruct (from_cache loaded ce) as [e|] eqn:He; simpl.
    + apply from_cache_Some in He as [Hfresh ->].
      unfold to_cache. simpl. split.
      * destruct (truthy (cached_data ce)) eqn:Ht; [|done].
        intros [= <-]. by exists ce.
      * intros (ce0 & [= <-] & _ & -> & ->). done.
    + split; [done|]. intros (ce0 & [= <-] & Hfresh & _).
      by rewrite (proj2 (from_cache_Some loaded ce _) (conj Hfresh eq_refl)) in He.
  - split; [done|]. by intros (ce & ? & _).
Qed.

(** X11. Notes that were done, with data other than an infinite number,
    saved, and loaded back within 24 hours are not generated again: from
    that render [generateNotes] makes no setter call for the diff whatever
    the network would answer, and a batch turn for it does nothing. *)
Theorem X11_cached_notes_are_not_regenerated `{Engine}
    (ns : gmap string NoteEntry) k e saved loaded storage st :
  ns !! k = Some e →
  status_of (Some e) = Done →
  infinite (data e) = false →
  (loaded - saved < CACHE_EXPIRATION)%Z →
  let snap := run (loadNotesFromCache (saveNotesToCache ns saved true storage) loaded)
                st in
  (∀ description diff net, generateNotes snap k description diff net = []) ∧
  (∀ job, id job.1 = k → batch_item snap job = []).
Proof.
  intros Hk Hdone Hfinite Hfresh snap.
  assert (generated (notes snap !! k) = true) as Hgen.
  { unfold snap. rewrite (reloaded_entry ns k e saved loaded storage st Hk Hdone Hfresh).
    apply generated_iff_done in Hdone. simpl in *.
    rewrite truthy_stored, Hfinite. by destruct (truthy (data e)). }
  split.
  - intros description diff net. unfold generateNotes. by rewrite Hgen.
  - intros [d net] Hid. simpl in Hid. subst k. unfold batch_item.
    by rewrite Hgen.
Qed.

(** X20. Notes that were done with an infinite number as data, as a done
    text such as [1e400] leaves them, are saved but written as [null]:
    loaded back within 24 hours the entry has [null] as data, and from
    that render [generateNotes] starts a new attempt for the diff. *)
Theorem X20_infinite_notes_are_regenerated `{Engine}
    (ns : gmap string NoteEntry) k e saved loaded storage st description diff net :
  ns !! k = Some e →
  status_of (Some e) = Done →
  infinite (data e) = true →
  (loaded - saved < CACHE_EXPIRATION)%Z →
  let snap := run (loadNotesFromCache (saveNotesToCache ns saved true storage) loaded)
                st in
  notes snap !! k = Some {| loading := false; error := None; data := JNull |} ∧
  ∃ rest, generateNotes snap k description diff net
          = SetJsonAccumulator k "" :: SetNotes k loading_entry :: rest.
Proof.
  intros Hk Hdone Hinf Hfresh snap.
  assert (notes snap !! k
          = Some {| loading := false; error := None; data := JNull |}) as Hentry.
  { unfold snap. rewrite (reloaded_entry ns k e saved loaded storage st Hk Hdone Hfresh).
    destruct (data e) as [| | [] | | |]; done. }
  split; [exact Hentry|].
  unfold generateNotes. rewrite Hentry. by eexists.
Qed.

Lemma X20_witness :
  let engine := Sample.engine in
  let e := done_entry (JNum (Infinite false)) in
  let ns : gmap string NoteEntry := {[ "42" := e ]} in
  let snap := run (loadNotesFromCache (saveNotesToCache ns 1000 true NoItem) 3600000)
                initial in
  parse "1e400" = Some (data e) ∧
  ns !! "42" = Some e ∧
  status_of (Some e) = Done ∧
  infinite (data e) = true ∧
  (3600000 - 1000 < CACHE_EXPIRATION)%Z ∧
  notes snap !! "42" = Some {| loading := false; error := None; data := JNull |} ∧
  ∃ rest, generateNotes snap "42" "Fix caching bug" "patch" Sample.full_stream
          = SetJsonAccumulator "42" "" :: SetNotes "42" loading_entry :: rest.
Proof.
  intros engine e ns snap.
  assert (3600000 - 1000 < CACHE_EXPIRATION)%Z as Hfresh by (vm_compute; reflexivity).
  split; [by vm_compute|]. split; [reflexivity|]. split; [reflexivity|].
  split; [reflexivity|]. split; [exact Hfresh|].
  exact (X20_infinite_notes_are_regenerated ns "42" e 1000 3600000 NoItem initial
           "Fix caching bug" "patch" Sample.full_stream
           eq_refl eq_refl eq_refl Hfresh).
Defined.

Lemma X11_witness :
  let engine := Sample.engine in
  let ns : gmap string NoteEntry := {[ "42" := done_entry Sample.notes_ab ]} in
  let snap := run (loadNotesFromCache (saveNotesToCache ns 1000 true NoItem) 3600000)
                initial in
  ns !! "42" = Some (done_entry Sample.notes_ab) ∧
  status_of (Some (done_entry Sample.notes_ab)) = Done ∧
  infinite Sample.notes_ab = false ∧
  (3600000 - 1000 < CACHE_EXPIRATION)%Z ∧
  generateNotes snap "42" "Fix caching bug" "patch" Sample.full_stream = [] ∧
  batch_item snap (Sample.item "42", Sample.full_stream) = [].
Proof.
  intros engine ns snap.
  assert (3600000 - 1000 < CACHE_EXPIRATION)%Z as Hfresh by (vm_compute; reflexivity).
  destruct (X11_cached_notes_are_not_regenerated ns "42"
              (done_entry Sample.notes_ab) 1000 3600000 NoItem initial
              eq_refl eq_refl eq_refl Hfresh) as [Hgen Hbatch].
  split; [reflexivity|]. split; [reflexivity|]. split; [reflexivity|].
  split; [exact Hfresh|].
  split; [exact (Hgen _ _ _)|].
  exact (Hbatch (Sample.item "42", Sample.full_stream) eq_refl).
Defined.

(** *** The repair of the accumulated text *)

Lemma prefix_nil s : String.prefix EmptyString s = true.
Proof. by destruct s. Qed.

Lemma rev_app_app s t acc :
  String.rev_app (s +:+ t) acc = String.rev_app t (String.rev_app s acc).
Proof.
  revert acc. induction s as [|a s IH]; intros acc; [done|].
  rewrite append_cons. simpl. by rewrite IH.
Qed.

Lemma rev_app_acc s acc : String.rev_app s acc = String.rev s +:+ acc.
Proof.
  unfold String.rev. revert acc. induction s as [|a s IH]; intros acc; [done|].
  simpl. rewrite (IH (String a acc)), (IH (String a EmptyString)).
  by rewrite append_assoc.
Qed.

Lemma endsWith_append s c :
  Str.endsWith (s +:+ String c EmptyString) (String c EmptyString) = true.
Proof.
  unfold Str.endsWith, String.rev. rewrite rev_app_app. simpl.
  destruct (ascii_dec c c); [apply prefix_nil|done].
Qed.

Lemma endsWith_cons a s c :
  Str.endsWith s (String c EmptyString) = true →
  Str.endsWith (String a s) (String c EmptyString) = true.
Proof.
  unfold Str.endsWith.
  change (String.rev (String a s)) with (String.rev_app s (String a EmptyString)).
  change (String.rev (String c EmptyString)) with (String c EmptyString).
  rewrite (rev_app_acc s (String a EmptyString)).
  destruct (String.rev s) as [|b r]; [done|].
  rewrite append_cons. simpl. destruct (ascii_dec c b); [|done].
  intros _. apply prefix_nil.
Qed.

Lemma startsWith_cons c s :
  Str.startsWith (String c s) (String c EmptyString) = true.
Proof.
  unfold Str.startsWith. simpl. destruct (ascii_dec c c); [apply prefix_nil|done].
Qed.

(** X12. The repaired text always starts with an opening brace and ends
    with a closing brace, and repairing twice is repairing once. *)
Theorem X12_repair_braces_both_ends updatedJson :
  Str.startsWith (fix_json updatedJson) "{" = true ∧
  Str.endsWith (fix_json updatedJson) "}" = true ∧
  fix_json (fix_json updatedJson) = fix_json updatedJson.
Proof.
  assert (Str.startsWith (fix_json updatedJson) "{" = true ∧
          Str.endsWith (fix_json updatedJson) "}" = true) as [Hs He].
  { unfold fix_json.
    set (closed := if Str.endsWith updatedJson "}" then updatedJson
                   else updatedJson +:+ "}").
    assert (Str.endsWith closed "}" = true) as Hclosed.
    { unfold closed. destruct (Str.endsWith updatedJson "}") eqn:E; [done|].
      apply endsWith_append. }
    destruct (Str.startsWith closed "{") eqn:E; [done|].
    split; [apply startsWith_cons|]. by apply endsWith_cons. }
  split; [done|]. split; [done|].
  unfold fix_json at 1. by rewrite He, Hs.
Qed.

(** *** The pager *)

(** X13. When the request for a page fails (rejected, not OK, or a body
    that cannot be read), [fetchDiffs] keeps the list, the page numbers and
    the fetched-once flag, sets a non-null error and ends not loading. The
    same failure on the fetch button leaves the list empty, because the
    list is cleared before the request. *)
Theorem X13_failed_fetch_keeps_or_empties_the_list snap page net st :
  Pager.failed net →
  (let st' := Pager.run (Pager.fetchDiffs snap page net) st in
   Pager.diffs st' = Pager.diffs st ∧
   Pager.currentPage st' = Pager.currentPage st ∧
   Pager.nextPage st' = Pager.nextPage st ∧
   Pager.initialFetchDone st' = Pager.initialFetchDone st ∧
   is_Some (Pager.error st') ∧
   Pager.isLoading st' = false) ∧
  (let st' := Pager.run (Pager.handleFetchClick snap net) st in
   Pager.diffs st' = [] ∧
   Pager.nextPage st' = Pager.nextPage st ∧
   is_Some (Pager.error st') ∧
   Pager.isLoading st' = false).
Proof. destruct net; [..|done]; intros _; by repeat split; eexists. Qed.

Lemma X13_witness :
  let shown := Pager.run (Pager.handleFetchClick Pager.initial
                            (Pager.Ok (Cases.page 1 (Some 2%N)))) Pager.initial in
  let net := Pager.NotOk 500 None in
  Pager.failed net ∧
  Pager.diffs (Pager.run (Pager.fetchDiffs shown 2 net) shown) = Pager.diffs shown ∧
  Pager.error (Pager.run (Pager.fetchDiffs shown 2 net) shown)
  = Some "HTTP error! status: 500" ∧
  Pager.diffs (Pager.run (Pager.handleFetchClick shown net) shown) = [].
Proof.
  intros shown net.
  destruct (X13_failed_fetch_keeps_or_empties_the_list shown 2 net shown I)
    as [(Hdiffs & _) (Hempty & _)].
  split; [exact I|]. split; [exact Hdiffs|]. split; [reflexivity|]. exact Hempty.
Defined.

Lemma load_more_step snap st p data :
  Pager.nextPage snap = Some p →
  p ≠ 0%N →
  let st' := Pager.run (Pager.handleLoadMoreClick snap (Pager.Ok data)) st in
  Pager.diffs st' = (if (p =? 1)%N then Pager.data_diffs data
                     else Pager.diffs st ++ Pager.data_diffs data) ∧
  Pager.currentPage st' = Pager.data_currentPage data ∧
  Pager.nextPage st' = Pager.data_nextPage data ∧
  Pager.error st' = None ∧
  Pager.isLoading st' = false.
Proof.
  intros Hnext Hp st'. unfold st', Pager.handleLoadMoreClick. rewrite Hnext.
  destruct (N.eqb_spec p 0); [done|].
  unfold Pager.fetchDiffs. by destruct (Pager.initialFetchDone snap).
Qed.

(** X14. Load more from a render whose next page is p (not null, not 0),
    on an OK answer: the fetched items replace the list when p is 1 and are
    appended to it otherwise; the page numbers are those of the answer, the
    error is null and loading is over. *)
Theorem X14_load_more_appends snap st p data :
  Pager.nextPage snap = Some p →
  p ≠ 0%N →
  let st' := Pager.run (Pager.handleLoadMoreClick snap (Pager.Ok data)) st in
  (p = 1%N → Pager.diffs st' = Pager.data_diffs data) ∧
  (p ≠ 1%N → Pager.diffs st' = Pager.diffs st ++ Pager.data_diffs data) ∧
  Pager.currentPage st' = Pager.data_currentPage data ∧
  Pager.nextPage st' = Pager.data_nextPage data ∧
  Pager.error st' = None ∧
  Pager.isLoading st' = false.
Proof.
  intros Hnext Hp st'.
  destruct (load_more_step snap st p data Hnext Hp) as (Hd & Hrest).
  fold st' in Hd, Hrest.
  split; [intros ->; exact Hd|]. split; [|exact Hrest].
  intros Hp1. rewrite Hd. by destruct (N.eqb_spec p 1).
Qed.

Lemma X14_witness :
  let shown := Pager.run (Pager.handleFetchClick Pager.initial
                            (Pager.Ok (Cases.page 1 (Some 2%N)))) Pager.initial in
  let st' := Pager.run (Pager.handleLoadMoreClick shown
                          (Pager.Ok (Cases.page 2 (Some 3%N)))) shown in
  Pager.nextPage shown = Some 2%N ∧
  2%N ≠ 0%N ∧
  2%N ≠ 1%N ∧
  Pager.diffs st' = [Sample.item "1"; Sample.item "2"] ∧
  Pager.nextPage st' = Some 3%N.
Proof.
  intros shown st'.
  assert (2%N ≠ 0%N) as H0 by discriminate.
  assert (2%N ≠ 1%N) as H1 by discriminate.
  destruct (X14_load_more_appends shown shown 2 (Cases.page 2 (Some 3%N))
              eq_refl H0) as (_ & Happ & _ & Hnext & _).
  split; [reflexivity|]. split; [exact H0|]. split; [exact H1|].
  split; [exact (Happ H1)|]. exact Hnext.
Defined.

Lemma last_cons_default {A} (d prev : A) more :
  List.last (d :: more) prev = List.last more d.
Proof.
  revert d prev. induction more as [|a more IH]; intros d prev; [done|].
  change (List.last (d :: a :: more) prev) with (List.last (a :: more) prev).
  rewrite IH. symmetry. apply IH.
Qed.

Lemma load_more_fold more prev st :
  Pager.nextPage st = Pager.data_nextPage prev →
  Forall Pager.has_more (removelast (prev :: more)) →
  let st' := fold_left (λ st net, Pager.run (Pager.handleLoadMoreClick st net) st)
               (map Pager.Ok more) st in
  Pager.diffs st' = Pager.diffs st ++ concat (map Pager.data_diffs more) ∧
  Pager.nextPage st' = Pager.data_nextPage (List.last more prev).
Proof.
  revert prev st. induction more as [|d more IH]; intros prev st Hnext Hmore.
  - simpl. by rewrite app_nil_r.
  - change (removelast (prev :: d :: more))
      with (prev :: removelast (d :: more)) in Hmore.
    inversion Hmore as [|? ? (p & Hp & Hp0 & Hp1) Hmore']; subst.
    cbn [map fold_left concat].
    rewrite Hp in Hnext.
    destruct (load_more_step st st p d Hnext Hp0) as (Hd & _ & Hn & _).
    destruct (IH d _ Hn Hmore') as [-> ->].
    rewrite Hd. destruct (N.eqb_spec p 1); [done|].
    rewrite <-app_assoc. split; [done|]. by rewrite last_cons_default.
Qed.

(** X15. A visit: the fetch button, then load more once per further
    answer, every answer but the last naming a further page other than 0
    and 1. The list shown is the items of all the answers in order, and the
    next page is that of the last answer. *)
Theorem X15_visit_shows_all_pages_in_order first more :
  Forall Pager.has_more (removelast (first :: more)) →
  let st := Pager.visit (Pager.Ok first) (map Pager.Ok more) in
  Pager.diffs st = concat (map Pager.data_diffs (first :: more)) ∧
  Pager.nextPage st = Pager.data_nextPage (List.last more first).
Proof.
  intros Hmore st. unfold st, Pager.visit.
  destruct (load_more_fold more first
              (Pager.run (Pager.handleFetchClick Pager.initial (Pager.Ok first))
                 Pager.initial)) as [-> ->]; done.
Qed.

Lemma X15_witness :
  let first := Cases.page 1 (Some 2%N) in
  let more := [Cases.page 2 (Some 3%N); Cases.page 3 None] in
  let st := Pager.visit (Pager.Ok first) (map Pager.Ok more) in
  Forall Pager.has_more (removelast (first :: more)) ∧
  Pager.diffs st = [Sample.item "1"; Sample.item "2"; Sample.item "3"] ∧
  Pager.nextPage st = None.
Proof.
  intros first more st.
  assert (Forall Pager.has_more (removelast (first :: more))) as Hmore.
  { apply List.Forall_cons; [by exists 2%N|].
    apply List.Forall_cons; [by exists 3%N|]. apply List.Forall_nil. }
  split; [exact Hmore|].
  exact (X15_visit_shows_all_pages_in_order first more Hmore).
Defined.

(** *** The two route handlers *)

(** X16. The handler answers 400 with [Missing required fields] exactly
    when diff is a string and id or description is missing. *)
Theorem X16_400_exactly_when_id_or_description_missing body upstream :
  Route.POST body upstream = Route.JsonResponse 400 "Missing required fields" None ↔
  ∃ id description s,
    body = Route.Fields id description (Route.Text s) ∧
    (Route.is_nullish id = true ∨ Route.is_nullish description = true).
Proof.
  split.
  - destruct body as [t|id description diff]; [done|].
    destruct diff as [| |s]; [done..|]. intros H. exists id, description, s.
    split; [done|]. unfold Route.POST in H. simpl in H.
    destruct (Route.is_nullish id); [by left|].
    destruct (Route.is_nullish description); [by right|].
    simpl in H. by destruct upstream.
  - intros (id & description & s & -> & H).
    apply POST_missing_id_or_description. by destruct H as [-> | ->]; [|rewrite orb_true_r].
Qed.

(** X17. The streaming and the non-streaming handler give the same error
    answer (status, error, details), or both none, on the same body, when
    the upstream call throws the same error and when it succeeds. *)
Theorem X17_both_handlers_fail_alike body :
  (∀ t, Legacy.failure (Legacy.POST body (Legacy.ParseThrows t))
        = Legacy.route_failure (Route.POST body (Route.UpstreamThrows t))) ∧
  (∀ output_parsed events,
     Legacy.failure (Legacy.POST body (Legacy.Parsed output_parsed))
     = Legacy.route_failure (Route.POST body (Route.UpstreamEvents events))).
Proof.
  split; intros; destruct body as [t'|id description diff]; try done.
  all: simpl; destruct (Route.diffPreview diff); [|done].
  all: by destruct (_ || _).
Qed.

(** What a malformed frame throws: the SyntaxError of [JSON.parse] on the
    text after the prefix, or the TypeError of reading [event] off
    [null]. *)
Lemma handle_line_malformed `{Engine} snap k line :
  Wire.classify line = Wire.Malformed →
  let envelope := Str.substring_from 6 line in
  ∃ t, (parse envelope = None ∧ t = syntax_error envelope ∨
        parse envelope = Some JNull ∧ t = null_envelope) ∧
       handle_line snap k line = ([], Some t).
Proof.
  unfold Wire.classify, handle_line.
  destruct (Str.startsWith line "data: "); [|done].
  destruct (parse _) as [ev|]; [|by eauto].
  destruct ev; try by eauto.
  all: destruct (event_is _ DELTA); [done|]; by destruct (event_is _ DONE).
Qed.

(** X18. A frame whose envelope does not parse, or is [null], ends the
    attempt in the error entry even when a done frame follows it: the
    frames after it are not handled, whatever the end of the stream. The
    error shown is the message of what was thrown: that of the SyntaxError
    of [JSON.parse] on the envelope, or that of the TypeError of reading
    [event] off [null], as the engine words them. *)
Theorem X18_malformed_frame_ends_in_error `{Engine}
    snap diffId description diff status chunks ending before line after st :
  generated (notes snap !! diffId) = false →
  response_ok status = true →
  Wire.closed_segments chunks = before ++ line :: after →
  Forall (λ l, Wire.classify l ≠ Wire.Malformed) before →
  Wire.classify line = Wire.Malformed →
  let envelope := Str.substring_from 6 line in
  ∃ message,
    (parse envelope = None ∧ message = syntax_error_message envelope ∨
     parse envelope = Some JNull ∧ message = null_read_message) ∧
    notes (run (generateNotes snap diffId description diff
                  (Responds status (Some {| chunks := chunks; ending := ending |})))
             st) !! diffId
    = Some {| loading := false; error := Some message; data := JNull |}.
Proof.
  intros Hgen Hok Hframes Hbefore Hline envelope.
  destruct (handle_line_malformed snap diffId line Hline) as (t & Ht & Hl).
  exists (failure_message t). split.
  { destruct Ht as [[? ->]|[? ->]]; [by left|by right]. }
  apply (generateNotes_failure snap diffId description diff _ t st); [done|].
  rewrite attempt_over_frames, Hframes, handle_lines_app by done.
  pose proof (handle_lines_no_throw snap diffId before Hbefore) as Hno.
  destruct (handle_lines snap diffId before) as [us r]. simpl in Hno. subst r.
  cbn [handle_lines]. by rewrite Hl.
Qed.

Lemma X18_witness :
  let engine := Sample.engine in
  let envelope := Str.substring_from 6 Cases.broken_line in
  generated (notes initial !! "42") = false ∧
  response_ok 200 = true ∧
  Wire.closed_segments Cases.broken_stream
  = [Sample.delta_line1] ++ Cases.broken_line :: [Sample.done_line3] ∧
  Forall (λ l, Wire.classify l ≠ Wire.Malformed) [Sample.delta_line1] ∧
  Wire.classify Cases.broken_line = Wire.Malformed ∧
  parse envelope = None ∧
  notes (run (generateNotes initial "42" "Fix caching bug" "patch"
                (Responds 200 (Some {| chunks := Cases.broken_stream;
                                       ending := Closed |})))
           initial) !! "42"
  = Some {| loading := false;
            error := Some (syntax_error_message envelope);
            data := JNull |}.
Proof.
  intros engine envelope.
  assert (Wire.closed_segments Cases.broken_stream
          = [Sample.delta_line1] ++ Cases.broken_line :: [Sample.done_line3])
    as Hframes by (vm_compute; reflexivity).
  assert (Forall (λ l, Wire.classify l ≠ Wire.Malformed) [Sample.delta_line1])
    as Hbefore.
  { apply List.Forall_cons; [by vm_compute|]. apply List.Forall_nil. }
  assert (Wire.classify Cases.broken_line = Wire.Malformed) as Hline
    by (vm_compute; reflexivity).
  assert (parse envelope = None) as Hfail by (vm_compute; reflexivity).
  split; [reflexivity|]. split; [reflexivity|]. split; [exact Hframes|].
  split; [exact Hbefore|]. split; [exact Hline|]. split; [exact Hfail|].
  destruct (X18_malformed_frame_ends_in_error initial "42" "Fix caching bug" "patch"
              200 Cases.broken_stream Closed [Sample.delta_line1] Cases.broken_line
              [Sample.done_line3] initial eq_refl eq_refl Hframes Hbefore Hline)
    as (message & [[_ ->]|[Hnull _]] & Hentry).
  - exact Hentry.
  - exfalso. change (parse envelope = Some JNull) in Hnull. congruence.
Defined.
